(** * nnet_rbm: data partitioning, control sets and evaluation callbacks

    A shallow embedding of [nnet_rbm.py].  The numpy objects the module
    works on are modelled as they behave at run time: arrays are buffers
    in a store and Python names hold views on them, so that in-place
    shuffles and slices that share memory are visible; floats are IEEE 754
    binary64 values computed with the reference operations of
    [SpecFloat]; exceptions are results of a state-and-error monad. *)

From Stdlib Require Import ZArith Lia Bool SpecFloat.
From stdpp Require Import base option list gmap.

Local Open Scope Z_scope.

(** ** Python floats *)

Module Binary64.

Definition prec : Z := 53.
Definition emax : Z := 1024.

Abbreviation float := spec_float.

Definition fadd : float -> float -> float := SFadd prec emax.
Definition fsub : float -> float -> float := SFsub prec emax.
Definition fmul : float -> float -> float := SFmul prec emax.
Definition fdiv : float -> float -> float := SFdiv prec emax.
Definition flt : float -> float -> bool := SFltb.
Definition fle : float -> float -> bool := SFleb.

Definition is_nan (x : float) : bool :=
  match x with S754_nan => true | _ => false end.

(** Every float object is a binary64 value. *)
Definition is_float (x : float) : Prop := valid_binary prec emax x = true.

(** The correctly rounded value of an integer. *)
Definition of_Z (n : Z) : float := binary_normalize prec emax n 0 false.

(** The literals [0.], [1.] and [0.05] of the source. *)
Definition f0 : float := S754_zero false.
Definition f1 : float := Eval vm_compute in of_Z 1.
Definition f0_05 : float := Eval vm_compute in fdiv (of_Z 1) (of_Z 20).

#[global] Arguments fadd : simpl never.
#[global] Arguments fsub : simpl never.
#[global] Arguments fmul : simpl never.
#[global] Arguments fdiv : simpl never.
#[global] Arguments flt : simpl never.
#[global] Arguments fle : simpl never.
#[global] Arguments of_Z : simpl never.

End Binary64.
Export Binary64.

(** ** Exceptions and the interpreter monad *)

Inductive exn : Set :=
  | AssertionError
  | IndexError
  | ValueError
  | OverflowError
  | AttributeError
  | TypeError.

Inductive result (A : Type) : Type :=
  | Ok (a : A)
  | Raise (e : exn).
Arguments Ok {A} a.
Arguments Raise {A} e.

Definition is_ok {A} (r : result A) : bool :=
  match r with Ok _ => true | Raise _ => false end.

Definition result_bind {A B} (r : result A) (k : A -> result B) : result B :=
  match r with Ok a => k a | Raise e => Raise e end.

(** A list comprehension whose body can raise: the first exception, in
    order, ends it. *)
Fixpoint result_map {A B} (f : A -> result B) (l : list A) : result (list B) :=
  match l with
  | [] => Ok []
  | a :: l' =>
      result_bind (f a) (fun b =>
      result_bind (result_map f l') (fun bs => Ok (b :: bs)))
  end.

(** [float(n)] for a Python integer. *)
Definition float_of_int (n : Z) : result float :=
  match of_Z n with
  | S754_infinity _ => Raise OverflowError
  | f => Ok f
  end.

(** [int(x)] for a Python float. *)
Definition int_of_float (x : float) : result Z :=
  match x with
  | S754_nan => Raise ValueError
  | S754_infinity _ => Raise OverflowError
  | S754_zero _ => Ok 0
  | S754_finite s m e => Ok (cond_Zopp s (Z.shiftl (Zpos m) e))
  end.

(** [n * x] with [n] an integer and [x] a float: [n] is converted first. *)
Definition int_mul_float (n : Z) (x : float) : result float :=
  match float_of_int n with
  | Ok nf => Ok (fmul nf x)
  | Raise e => Raise e
  end.

(** ** The random number generator

    [numpy.random] is not part of the module.  Its generator is taken
    through the operations the module calls, with the ranges numpy
    documents for them. *)

Class Generator : Type := {
  RandomState : Type;
  (** [RandomState(seed)]; [None] when the seed is refused ([ValueError]) *)
  rk_seed : Z -> option RandomState;
  (** a draw from [0, max], both ends included *)
  rk_interval : nat -> RandomState -> nat * RandomState;
  rk_interval_le : forall m s, (fst (rk_interval m s) <= m)%nat;
  (** one draw of [choice(a, p=p)] *)
  rk_sample : Z -> option (list float) -> RandomState -> Z * RandomState;
  rk_sample_range : forall a p s, 0 < a -> 0 <= fst (rk_sample a p s) < a;
  (** the test [choice] applies to [p]: non-negative entries that sum to one *)
  rk_check_p : list float -> bool;
  (** [RandomState()]: a state made from what the operating system returns *)
  rk_randomseed : Z -> RandomState
}.

(** ** Arrays *)

Abbreviation loc := positive.

(** A two-dimensional buffer of integers: [cols] is the length of every row. *)
Record buffer : Type := { cols : nat; data : list (list Z) }.

(** An [ndarray] object: the rows [start, start + len) of a buffer. *)
Record ndarray : Type := { base : loc; start : nat; len : nat }.

(** The value an array has when it is handed to other code. *)
Inductive ndvalue : Type :=
  | Arr1 (v : list Z)
  | Arr2 (ncols : nat) (rows : list (list Z)).

Definition rect (b : buffer) : Prop :=
  Forall (fun r => length r = cols b) (data b).

(** ** The interpreter state *)

Section Interp.

Context {G : Generator}.

(** Buffers, the generator objects the caller holds, the generator behind
    [numpy.random], the answers of the operating system to requests for
    entropy, and the three lists [main] accumulates. *)
Record world : Type := {
  arrays : gmap loc buffer;
  gens : gmap loc RandomState;
  np_random : RandomState;
  urandom : list Z;
  x_valid_ll : list float;
  x_valid_ll_ratio : list float;
  sent_challenge : list float
}.

Definition set_arrays (h : gmap loc buffer) (w : world) : world :=
  {| arrays := h; gens := gens w; np_random := np_random w;
     urandom := urandom w; x_valid_ll := x_valid_ll w;
     x_valid_ll_ratio := x_valid_ll_ratio w;
     sent_challenge := sent_challenge w |}.

Definition set_gens (g : gmap loc RandomState) (w : world) : world :=
  {| arrays := arrays w; gens := g; np_random := np_random w;
     urandom := urandom w; x_valid_ll := x_valid_ll w;
     x_valid_ll_ratio := x_valid_ll_ratio w;
     sent_challenge := sent_challenge w |}.

Definition set_np_random (s : RandomState) (w : world) : world :=
  {| arrays := arrays w; gens := gens w; np_random := s;
     urandom := urandom w; x_valid_ll := x_valid_ll w;
     x_valid_ll_ratio := x_valid_ll_ratio w;
     sent_challenge := sent_challenge w |}.

Definition set_urandom (u : list Z) (w : world) : world :=
  {| arrays := arrays w; gens := gens w; np_random := np_random w;
     urandom := u; x_valid_ll := x_valid_ll w;
     x_valid_ll_ratio := x_valid_ll_ratio w;
     sent_challenge := sent_challenge w |}.

Definition M (A : Type) : Type := world -> result A * world.

Definition ret {A} (a : A) : M A := fun w => (Ok a, w).

Definition raise {A} (e : exn) : M A := fun w => (Raise e, w).

Definition bind {A B} (m : M A) (k : A -> M B) : M B :=
  fun w =>
    match m w with
    | (Ok a, w') => k a w'
    | (Raise e, w') => (Raise e, w')
    end.

Definition lift {A} (r : result A) : M A := fun w => (r, w).

Definition py_assert (b : bool) : M unit :=
  if b then ret tt else raise AssertionError.

End Interp.

Notation "'let*' x ':=' m 'in' k" := (bind m (fun x => k))
  (at level 10, x pattern, m at level 100, k at level 200).

(** ** numpy operations *)

Section Numpy.

Context {G : Generator}.

Definition read_buffer (l : loc) : M buffer :=
  fun w =>
    match arrays w !! l with
    | Some b => (Ok b, w)
    | None => (Raise TypeError, w)
    end.

Definition rows_of (b : buffer) (a : ndarray) : list (list Z) :=
  take (len a) (drop (start a) (data b)).

(** The rows a name currently denotes (empty when it denotes no array). *)
Definition rows (w : world) (a : ndarray) : list (list Z) :=
  match arrays w !! base a with
  | Some b => rows_of b a
  | None => []
  end.

(** Store [rs] over the rows of the view [a]. *)
Definition write_rows (a : ndarray) (rs : list (list Z)) : M unit :=
  fun w =>
    match arrays w !! base a with
    | Some b =>
        let d := take (start a) (data b) ++ rs
                   ++ drop (start a + len a) (data b) in
        (Ok tt,
         set_arrays (<[base a := {| cols := cols b; data := d |}]> (arrays w)) w)
    | None => (Raise TypeError, w)
    end.

(** [np.array(a)]: a new buffer holding a copy of the rows of [a]. *)
Definition np_array (a : ndarray) : M ndarray :=
  let* b := read_buffer (base a) in
  fun w =>
    let l := fresh (dom (arrays w)) in
    let rs := rows_of b a in
    (Ok {| base := l; start := 0; len := length rs |},
     set_arrays (<[l := {| cols := cols b; data := rs |}]> (arrays w)) w).

(** [a.shape[0]] and [a.shape[1]] *)
Definition shape0 (a : ndarray) : Z := Z.of_nat (len a).

Definition shape1 (a : ndarray) : M nat :=
  let* b := read_buffer (base a) in ret (cols b).

Definition value_of (a : ndarray) : M ndvalue :=
  let* b := read_buffer (base a) in ret (Arr2 (cols b) (rows_of b a)).

(** Python's normalisation of one bound of a slice of a sequence of
    length [n]. *)
Definition slice_index (n i : Z) : Z :=
  if i <? 0 then Z.max (i + n) 0 else Z.min i n.

(** [a[lo:hi]]: a view on the same buffer. *)
Definition getslice (a : ndarray) (lo hi : option Z) : ndarray :=
  let n := Z.of_nat (len a) in
  let lo' := match lo with Some i => slice_index n i | None => 0 end in
  let hi' := match hi with Some i => slice_index n i | None => n end in
  {| base := base a;
     start := start a + Z.to_nat lo';
     len := Z.to_nat (hi' - lo') |}.

(** [a[i]]: one row, as a one-dimensional array. *)
Definition getitem (a : ndarray) (i : Z) : M ndvalue :=
  let n := Z.of_nat (len a) in
  let i' := if i <? 0 then i + n else i in
  if (i' <? 0) || (n <=? i') then raise IndexError
  else
    let* b := read_buffer (base a) in
    match rows_of b a !! Z.to_nat i' with
    | Some r => ret (Arr1 r)
    | None => raise IndexError
    end.

(** [x[i], x[j] = x[j], x[i]] *)
Definition swap {A} (i j : nat) (l : list A) : list A :=
  match l !! i, l !! j with
  | Some xi, Some xj => <[j := xi]> (<[i := xj]> l)
  | _, _ => l
  end.

(** The loop of [shuffle]: [i] runs from the last index down to 1. *)
Fixpoint shuffle_from {A} (i : nat) (l : list A) (s : RandomState)
  : list A * RandomState :=
  match i with
  | O => (l, s)
  | S i' =>
      let '(j, s') := rk_interval (S i') s in
      shuffle_from i' (swap (S i') j l) s'
  end.

Definition rk_shuffle {A} (l : list A) (s : RandomState)
  : list A * RandomState :=
  shuffle_from (length l - 1) l s.

(** A generator object as a Python name holds it: one made in the
    running call, or one shared with the caller. *)
Inductive rng_obj : Type :=
  | RngLocal (s : RandomState)
  | RngShared (r : loc).

(** [rng.shuffle(x)]: the rows of [x] are permuted in place. *)
Definition rng_shuffle (rng : rng_obj) (x : ndarray) : M unit :=
  match rng with
  | RngLocal s =>
      let* b := read_buffer (base x) in
      write_rows x (fst (rk_shuffle (rows_of b x) s))
  | RngShared r =>
      fun w =>
        match gens w !! r with
        | None => (Raise AttributeError, w)
        | Some s =>
            (let* b := read_buffer (base x) in
             let '(rs, s') := rk_shuffle (rows_of b x) s in
             let* _ := write_rows x rs in
             fun w' => (Ok tt, set_gens (<[r := s']> (gens w')) w')) w
        end
  end.

(** [np.random.RandomState()] *)
Definition RandomState_fresh : M rng_obj :=
  fun w =>
    match urandom w with
    | [] => (Ok (RngLocal (rk_randomseed 0)), w)
    | u :: us => (Ok (RngLocal (rk_randomseed u)), set_urandom us w)
    end.

(** Column [term] of a list of rows, and its replacement. *)
Definition column (term : nat) (rs : list (list Z)) : list Z :=
  omap (fun r => r !! term) rs.

Definition set_column (term : nat) (vals : list Z) (rs : list (list Z))
  : list (list Z) :=
  zip_with (fun r v => <[term := v]> r) rs vals.

(** [np.random.shuffle(a[:, term])]: the column is shuffled in place with
    the generator of [numpy.random]. *)
Definition np_random_shuffle_column (a : ndarray) (term : nat) : M unit :=
  let* b := read_buffer (base a) in
  if (cols b <=? term)%nat then raise IndexError
  else
    fun w =>
      let '(c, s') := rk_shuffle (column term (rows_of b a)) (np_random w) in
      write_rows a (set_column term c (rows_of b a)) (set_np_random s' w).

(** [size] draws, first to last. *)
Fixpoint rk_samples (a : Z) (p : option (list float)) (size : nat)
    (s : RandomState) : list Z * RandomState :=
  match size with
  | O => ([], s)
  | S n =>
      let '(v, s') := rk_sample a p s in
      let '(vs, s'') := rk_samples a p n s' in
      (v :: vs, s'')
  end.

(** The checks of [choice] on [p]: as long as the population, and a
    distribution. *)
Definition p_ok (a : Z) (p : option (list float)) : bool :=
  match p with
  | None => true
  | Some pv => (Z.of_nat (length pv) =? a) && rk_check_p pv
  end.

(** [np.random.choice(a, size, p=p)] *)
Definition np_random_choice (a : Z) (size : nat) (p : option (list float))
  : M (list Z) :=
  if a <=? 0 then raise ValueError
  else if negb (p_ok a p) then raise ValueError
  else
    fun w =>
      let '(vs, s') := rk_samples a p size (np_random w) in
      (Ok vs, set_np_random s' w).

(** [.astype('uint16')] on one entry *)
Definition astype_uint16 (v : Z) : Z := v mod 65536.

(** [a[:, term] = vals] *)
Definition setitem_column (a : ndarray) (term : nat) (vals : list Z)
  : M unit :=
  let* b := read_buffer (base a) in
  if (cols b <=? term)%nat then raise IndexError
  else if negb (length vals =? length (rows_of b a))%nat then raise ValueError
  else write_rows a (set_column term vals (rows_of b a)).

End Numpy.

(** ** The functions of the module *)

(** What the module uses of the trained model: the compiled functions for
    the normalised probability and for the un-normalised score of a batch
    of n-grams. *)
Class Model : Type := {
  lrbm : Type;
  probability_f : lrbm -> ndvalue -> result (list float);
  unnp_f : lrbm -> ndvalue -> result (list float)
}.

(** What it uses of numpy on floats, beyond the four operations. *)
Class Ufuncs : Type := {
  np_log : float -> float;
  np_sum : list float -> float;
  np_mean : list float -> float
}.

Definition _LOG_LIK_SIZE : Z := 100.

(** The [rng] argument of [dataset_split]: [None], an [int], or any other
    object. *)
Inductive rng_arg : Type :=
  | RngNone
  | RngInt (seed : Z)
  | RngObject (r : loc).

Section NnetRbm.

Context {G : Generator} {L : Model} {U : Ufuncs}.

Fixpoint for_each {A} (l : list A) (body : A -> M unit) : M unit :=
  match l with
  | [] => ret tt
  | a :: l' => let* _ := body a in for_each l' body
  end.

Definition xrange (n : nat) : list nat := seq 0 n.

Definition random_ngrams (ngrams : ndarray) (vocab_size : Z) (all : bool)
    (dist : option (list float)) (shuffle : bool) : M ndarray :=
  let* r_val := np_array ngrams in
  let* terms := if all then shape1 ngrams else ret 1%nat in
  let* _ :=
    for_each (xrange terms) (fun term =>
      if shuffle then np_random_shuffle_column r_val term
      else
        let* vals := np_random_choice vocab_size (len ngrams) dist in
        setitem_column r_val term (map astype_uint16 vals)) in
  ret r_val.

(** The generator [dataset_split] shuffles with: a new one when [rng] is
    [None], one made from the seed when it is an [int], and [rng] itself
    otherwise. *)
Definition rng_of_arg (rng : rng_arg) : M rng_obj :=
  match rng with
  | RngNone => RandomState_fresh
  | RngInt seed =>
      match rk_seed seed with
      | Some s => ret (RngLocal s)
      | None => raise ValueError
      end
  | RngObject r => ret (RngShared r)
  end.

Definition dataset_split (x : ndarray) (validation test : float)
    (rng : rng_arg) : M (ndarray * ndarray * ndarray) :=
  let* _ := py_assert (flt f0 validation && flt f0 test) in
  let* _ := py_assert (flt (fadd validation test) f1) in
  let* rng := rng_of_arg rng in
  (* shuffle data *)
  let* _ := rng_shuffle rng x in
  (* generate split indices *)
  let* i1 := lift (result_bind
                     (int_mul_float (shape0 x) (fsub (fsub f1 validation) test))
                     int_of_float) in
  let* i2 := lift (result_bind
                     (int_mul_float (shape0 x) (fsub f1 test))
                     int_of_float) in
  ret (getslice x None (Some i1),
       getslice x (Some i1) (Some i2),
       getslice x (Some i2) None).

(** Element-wise division of two one-dimensional arrays. *)
Definition np_divide (a b : list float) : result (list float) :=
  if (length a =? length b)%nat then Ok (zip_with fdiv a b)
  else
    match a, b with
    | [a0], _ => Ok (map (fdiv a0) b)
    | _, [b0] => Ok (map (fun v => fdiv v b0) a)
    | _, _ => Raise ValueError
    end.

Definition append_x_valid_ll (v : float) : M unit :=
  fun w =>
    (Ok tt,
     {| arrays := arrays w; gens := gens w; np_random := np_random w;
        urandom := urandom w; x_valid_ll := x_valid_ll w ++ [v];
        x_valid_ll_ratio := x_valid_ll_ratio w;
        sent_challenge := sent_challenge w |}).

Definition append_x_valid_ll_ratio (v : float) : M unit :=
  fun w =>
    (Ok tt,
     {| arrays := arrays w; gens := gens w; np_random := np_random w;
        urandom := urandom w; x_valid_ll := x_valid_ll w;
        x_valid_ll_ratio := x_valid_ll_ratio w ++ [v];
        sent_challenge := sent_challenge w |}).

Definition append_sent_challenge (v : float) : M unit :=
  fun w =>
    (Ok tt,
     {| arrays := arrays w; gens := gens w; np_random := np_random w;
        urandom := urandom w; x_valid_ll := x_valid_ll w;
        x_valid_ll_ratio := x_valid_ll_ratio w;
        sent_challenge := sent_challenge w ++ [v] |}).

(** The callback [main] installs for the end of every minibatch;
    [x_valid] and [x_valid_r] are the names it closes over. *)
Definition mnb_callback (x_valid x_valid_r : ndarray)
    (m : lrbm) (epoch mnb : Z) : M unit :=
  if negb (mnb mod 10 =? 9) then ret tt
  else
    (* calculate log likelihood using the exact probability *)
    let* batch := getitem x_valid _LOG_LIK_SIZE in
    let* p := lift (probability_f m batch) in
    let* _ := append_x_valid_ll (np_mean (map np_log p)) in
    (* also calculate the probability ratio between normal validation
       set and the randomized one *)
    let* v := value_of x_valid in
    let* u := lift (unnp_f m v) in
    let* v_r := value_of x_valid_r in
    let* u_r := lift (unnp_f m v_r) in
    let* q := lift (np_divide u u_r) in
    append_x_valid_ll_ratio (np_mean (map np_log q)).

(** [np.argmax] on a one-dimensional array of floats: the scan of
    numpy, which keeps the first of equal maxima and stops at a NaN. *)
Fixpoint argmax_from (mp : float) (max_ind i : nat) (ip : list float) : nat :=
  match ip with
  | [] => max_ind
  | v :: ip' =>
      if negb (fle v mp) then
        if is_nan v then i else argmax_from v i (S i) ip'
      else argmax_from mp max_ind (S i) ip'
  end.

Definition np_argmax (a : list float) : result nat :=
  match a with
  | [] => Raise ValueError
  | mp :: ip => Ok (if is_nan mp then O else argmax_from mp O 1%nat ip)
  end.

(** [np.array(predictions) == answers] *)
Definition np_equal (a b : list Z) : result (list bool) :=
  if (length a =? length b)%nat then Ok (zip_with Z.eqb a b)
  else
    match a, b with
    | [a0], _ => Ok (map (Z.eqb a0) b)
    | _, [b0] => Ok (map (fun v => Z.eqb v b0) a)
    | _, _ => Raise AttributeError
    end.

(** [.mean()] of an array of booleans *)
Definition mean_bool (l : list bool) : float :=
  fdiv (of_Z (Z.of_nat (length (filter (fun b => b = true) l))))
       (of_Z (Z.of_nat (length l))).

(** The two list comprehensions of [epoch_callback]. *)
Definition qg_log_lik (q_groups : list (list ndvalue)) (m : lrbm)
  : result (list (list float)) :=
  result_map (fun q_g =>
    result_map (fun q =>
      result_bind (unnp_f m q) (fun u => Ok (np_sum (map np_log u)))) q_g)
    q_groups.

Definition predictions (scores : list (list float)) : result (list nat) :=
  result_map (fun q_g => np_argmax q_g) scores.

(** The callback [main] installs for the end of every epoch; [q_groups]
    and [answers] are the names it closes over.  The lines that log the
    mean and deviation of the parameters are left out. *)
Definition epoch_callback (q_groups : list (list ndvalue)) (answers : list Z)
    (m : lrbm) (epoch : Z) : M unit :=
  (* evaluate model on the sentence completion challenge *)
  let* scores := lift (qg_log_lik q_groups m) in
  let* preds := lift (predictions scores) in
  let* hits := lift (np_equal (map Z.of_nat preds) answers) in
  append_sent_challenge (mean_bool hits).

End NnetRbm.

(** ** Vocabulary of the properties *)

Section Vocabulary.

Context {G : Generator}.

(** The name [a] denotes an array of the store: its buffer is there, is
    rectangular, and holds the rows of [a]. *)
Definition is_array (w : world) (a : ndarray) : Prop :=
  exists b, arrays w !! base a = Some b /\
            (start a + len a <= length (data b))%nat /\ rect b.

(** The state of the generator [dataset_split] shuffles with, when it can
    make one from [rng]. *)
Definition rng_state (w : world) (rng : rng_arg) : option RandomState :=
  match rng with
  | RngNone => Some (rk_randomseed (hd 0 (urandom w)))
  | RngInt seed => rk_seed seed
  | RngObject r => gens w !! r
  end.

(** The buffer [b] with the rows of the view [a] replaced by [rs]. *)
Definition splice (a : ndarray) (rs : list (list Z)) (b : buffer) : buffer :=
  {| cols := cols b;
     data := take (start a) (data b) ++ rs ++ drop (start a + len a) (data b) |}.

(** The array that is the whole of a buffer of [N] rows. *)
Definition whole (l : loc) (N : nat) : ndarray :=
  {| base := l; start := 0; len := N |}.

(** The body of the loop of [random_ngrams], for one term. *)
Definition loop_body (r_val : ndarray) (vocab_size : Z)
    (dist : option (list float)) (shuffle : bool) (N : nat) (term : nat)
  : M unit :=
  if shuffle then np_random_shuffle_column r_val term
  else
    let* vals := np_random_choice vocab_size N dist in
    setitem_column r_val term (map astype_uint16 vals).

(** One round of that loop as a function of the rows of [r_val] and of the
    state of the generator of [numpy.random]; [n] is the number of columns
    and [N] the number of rows. *)
Definition perturb_step (vocab_size : Z) (dist : option (list float))
    (shuffle : bool) (n N : nat) (term : nat) (rs : list (list Z))
    (s : RandomState) : result (list (list Z)) * RandomState :=
  if shuffle then
    if (n <=? term)%nat then (Raise IndexError, s)
    else
      let '(c, s') := rk_shuffle (column term rs) s in
      (Ok (set_column term c rs), s')
  else if vocab_size <=? 0 then (Raise ValueError, s)
  else if negb (p_ok vocab_size dist) then (Raise ValueError, s)
  else
    let '(vs, s') := rk_samples vocab_size dist N s in
    if (n <=? term)%nat then (Raise IndexError, s')
    else (Ok (set_column term (map astype_uint16 vs) rs), s').

Fixpoint perturb_terms (vocab_size : Z) (dist : option (list float))
    (shuffle : bool) (n N : nat) (terms : list nat) (rs : list (list Z))
    (s : RandomState) : result unit * list (list Z) * RandomState :=
  match terms with
  | [] => (Ok tt, rs, s)
  | term :: terms' =>
      match perturb_step vocab_size dist shuffle n N term rs s with
      | (Ok rs', s') => perturb_terms vocab_size dist shuffle n N terms' rs' s'
      | (Raise e, s') => (Raise e, rs, s')
      end
  end.

(** Two states that differ at most in the buffers and in the generator of
    [numpy.random]. *)
Definition same_frame (w w' : world) : Prop :=
  gens w' = gens w /\ urandom w' = urandom w /\
  x_valid_ll w' = x_valid_ll w /\ x_valid_ll_ratio w' = x_valid_ll_ratio w /\
  sent_challenge w' = sent_challenge w.

Definition rows_rect (n : nat) (rs : list (list Z)) : Prop :=
  Forall (fun r => length r = n) rs.

Definition unit_of {A} (r : result A) : result unit :=
  match r with Ok _ => Ok tt | Raise e => Raise e end.

Definition rows_or {A} (r : result A) (d : A) : A :=
  match r with Ok a => a | Raise _ => d end.

(** The entry in row [i] and column [j]. *)
Definition entry (rs : list (list Z)) (i j : nat) : option Z :=
  match rs !! i with Some r => r !! j | None => None end.


(** Two runs end the same way: with the same exception, or with results
    that [same] relates. *)
Definition same_outcome {A} (same : A -> A -> Prop) (r1 r2 : result A) : Prop :=
  match r1, r2 with
  | Ok a1, Ok a2 => same a1 a2
  | Raise e1, Raise e2 => e1 = e2
  | _, _ => False
  end.

(** [p] is the first index of [g] that holds a greatest score. *)
Definition first_max (g : list float) (p : nat) : Prop :=
  exists sp, g !! p = Some sp /\
    (forall j sj, g !! j = Some sj -> fle sj sp = true) /\
    (forall j sj, (j < p)%nat -> g !! j = Some sj -> flt sj sp = true).

Definition no_nan (g : list float) : Prop :=
  Forall (fun s => is_nan s = false) g.

End Vocabulary.
(** ** A generator that reads its draws from a tape

    The simplest instance of [Generator]: the state is the list of the raw
    numbers still to come, and a draw reduces the next one to the range
    asked for.  The examples below run on it. *)

Module Tape.

Definition interval (m : nat) (s : list nat) : nat * list nat :=
  match s with
  | [] => (O, [])
  | r :: s' => ((r mod S m)%nat, s')
  end.

Definition sample (a : Z) (p : option (list float)) (s : list nat)
  : Z * list nat :=
  match s with
  | [] => (0, [])
  | r :: s' => (Z.of_nat r mod a, s')
  end.

#[export] Instance generator : Generator.
Proof.
  refine {| RandomState := list nat;
            rk_seed := fun seed =>
              if (0 <=? seed) && (seed <? 2 ^ 32) then Some [Z.to_nat seed]
              else None;
            rk_interval := interval;
            rk_sample := sample;
            rk_check_p := fun _ => true;
            rk_randomseed := fun u => [Z.to_nat u] |}.
  - intros m [|r s']; unfold interval; cbn [fst]; [apply Nat.le_0_l|].
    apply Nat.lt_succ_r, Nat.mod_upper_bound. discriminate.
  - intros a p [|r s'] Ha; unfold sample; cbn [fst].
    + split; [apply Z.le_refl|exact Ha].
    + apply Z.mod_pos_bound, Ha.
Defined.

End Tape.

(** ** Stores, arrays and a model to run the functions on *)

Module Example.

Definition store (h : gmap loc buffer) (tape : list nat)
  : world (G := Tape.generator) :=
  @Build_world Tape.generator h ∅ tape [] [] [] [].

(** Three 2-grams. *)
Definition w3 : world := store {[ 1%positive := {| cols := 2; data := [[1; 5]; [2; 6]; [3; 7]] |} ]} [0; 0; 1]%nat.
Definition x3 : ndarray := {| base := 1; start := 0; len := 3 |}.

(** The same three 2-grams, as rows 1 to 3 of a buffer of another store. *)
Definition w3' : world := store {[ 7%positive := {| cols := 2; data := [[9; 9]; [1; 5]; [2; 6]; [3; 7]] |} ]} [0; 0; 1]%nat.
Definition x3' : ndarray := {| base := 7; start := 1; len := 3 |}.

(** Two 1-grams. *)
Definition w2 : world := store {[ 1%positive := {| cols := 1; data := [[1]; [2]] |} ]} [].
Definition x2 : ndarray := {| base := 1; start := 0; len := 2 |}.

(** A thousand 4-grams: row [i] is [i, 0, 0, 0]. *)
Definition w1000 : world := store {[ 1%positive := {| cols := 4; data := map (fun i => [Z.of_nat i; 0; 0; 0]) (seq 0 1000) |} ]} [].
Definition x1000 : ndarray := {| base := 1; start := 0; len := 1000 |}.

(** A validation set of 101 1-grams, row [i] being [i], and its control set. *)
Definition w101 : world := store {[ 1%positive := {| cols := 1; data := map (fun i => [Z.of_nat i]) (seq 0 101) |} ]} [].
Definition x101 : ndarray := {| base := 1; start := 0; len := 101 |}.

(** A model whose scores are read off the first term of each n-gram. *)
#[export] Instance model : Model := {|
  lrbm := unit;
  probability_f := fun _ v =>
    Ok match v with
       | Arr1 _ => [f0_05]
       | Arr2 _ rs => map (fun _ => f1) rs
       end;
  unnp_f := fun _ v =>
    Ok match v with
       | Arr1 r => [of_Z (1 + hd 0 r)]
       | Arr2 _ rs => map (fun r => of_Z (1 + hd 0 r)) rs
       end
|}.

(** Stand-ins for the functions of numpy on floats: [x - 1] in the place
    of the logarithm, sums from left to right. *)
#[export] Instance ufuncs : Ufuncs := {|
  np_log := fun x => fsub x f1;
  np_sum := fun l => fold_left fadd l f0;
  np_mean := fun l => fdiv (fold_left fadd l f0) (of_Z (Z.of_nat (length l)))
|}.

(** Two groups of candidates: the two candidates of the first score the
    same. *)
Definition q_groups : list (list ndvalue) :=
  [[Arr2 1 [[1]; [2]]; Arr2 1 [[2]; [1]]];
   [Arr2 1 [[0]]; Arr2 1 [[3]]; Arr2 1 [[1]]]].

Definition scores : list (list float) :=
  Eval vm_compute in
    match qg_log_lik q_groups tt with Ok s => s | Raise _ => [] end.

End Example.

(** ** The lines of [main] that work on data *)

(** [ft_format], the reader of the flag [-u]: [map] goes through a [str]
    character by character, so the [lambda] is applied to strings of
    length one.  [lower] acts on the letters A to Z, as it does on a [str]
    in the C locale. *)
Module Flags.

Import Ascii String.

Definition lower_char (c : ascii) : ascii :=
  let n := nat_of_ascii c in
  if (65 <=? n)%nat && (n <=? 90)%nat then ascii_of_nat (n + 32) else c.

Fixpoint lower (s : string) : string :=
  match s with
  | EmptyString => EmptyString
  | String c s' => String (lower_char c) (lower s')
  end.

(** The items a loop over a [str] goes through. *)
Fixpoint iter_str (s : string) : list string :=
  match s with
  | EmptyString => []
  | String c s' => String c EmptyString :: iter_str s'
  end.

Definition ft_format (s : string) : list bool :=
  List.map
    (fun s => existsb (String.eqb (lower s))
                ["1"; "true"; "yes"; "t"; "y"]%string)
    (iter_str s).

(** The characters that [ft_format] reads as a flag that is set. *)
Definition is_flag (c : ascii) : bool :=
  existsb (Ascii.eqb c) ["1"; "t"; "T"; "y"; "Y"]%char.

End Flags.

Section Main.

Context {G : Generator}.

(** [a / b] on two [int]s, which rounds down; [None] is
    [ZeroDivisionError]. *)
Definition int_div (a b : Z) : option Z :=
  if b =? 0 then None else Some (a / b).

(** [mnb_count = (x_train.shape[0] - 1) / mnb_size + 1] *)
Definition mnb_count (x_train : ndarray) (mnb_size : Z) : option Z :=
  option_map (fun q => q + 1) (int_div (shape0 x_train - 1) mnb_size).

(** The four data sets of [main]: the split of [ngrams], and the control
    set of the validation set.  [load_unigrams] stands for the lines in
    between, which load the unigram model and compute its
    distribution. *)
Definition main_datasets (ngrams : ndarray) (vocab_size : Z)
    (load_unigrams : M (list float))
  : M (ndarray * ndarray * ndarray * ndarray) :=
  (* split data into sets *)
  let* sets := dataset_split ngrams f0_05 f0_05 (RngInt 12345) in
  let '(x_train, x_valid, x_test) := sets in
  let* unigrams_dist := load_unigrams in
  (* finally, generate validation sets with randomized term *)
  let* x_valid_r :=
    random_ngrams x_valid vocab_size false (Some unigrams_dist) false in
  ret (x_train, x_valid, x_test, x_valid_r).

End Main.

Section CallbackVocabulary.

Context {G : Generator} {L : Model} {U : Ufuncs}.

(** The lines of [mnb_callback] that follow the first [append]. *)
Definition ratio_part (x_valid x_valid_r : ndarray) (m : lrbm) : M unit :=
  let* v := value_of x_valid in
  let* u := lift (unnp_f m v) in
  let* v_r := value_of x_valid_r in
  let* u_r := lift (unnp_f m v_r) in
  let* q := lift (np_divide u u_r) in
  append_x_valid_ll_ratio (np_mean (map np_log q)).

End CallbackVocabulary.

(** What an entry drawn by [random_ngrams] satisfies: it is a word of the
    vocabulary, and it fits in 16 bits. *)
Definition sampled (vocab_size : Z) (v : Z) : Prop :=
  0 <= v < vocab_size /\ v < 65536.

(** ** More examples *)

Module Cases.

(** A slice without rows of the three 2-grams of [Example.w3]. *)
Definition x0 : ndarray := {| base := 1; start := 1; len := 0 |}.

(** Forty 2-grams over four words. *)
Definition w40 : world :=
  Example.store
    {[ 1%positive :=
         {| cols := 2;
            data := map (fun i => [Z.of_nat (i mod 4); Z.of_nat ((i + 1) mod 4)])
                        (seq 0 40) |} ]}
    [3; 1; 6; 1; 5]%nat.
Definition x40 : ndarray := {| base := 1; start := 0; len := 40 |}.

Definition quarter : float := Eval vm_compute in fdiv (of_Z 1) (of_Z 4).
Definition unigrams : list float := [quarter; quarter; quarter; quarter].

(** A model whose probabilities can be computed and whose un-normalised
    scores cannot. *)
Definition half_model : Model := {|
  lrbm := unit;
  probability_f := fun _ _ => Ok [f0_05];
  unnp_f := fun _ _ => Raise ValueError
|}.


End Cases.
(** ** Rounding, for the proofs about floats

    The value of a finite float is written as an integer, in units of
    [2 ^ (- bias)] for a [bias] large enough for every exponent at hand;
    rounding to nearest is then a function on integers. *)

(** Round to nearest, ties to even, of [X / D]. *)
Definition rne (X D : Z) : Z :=
  let q := X / D in
  match 2 * (X mod D) ?= D with
  | Lt => q
  | Eq => if Z.even q then q else q + 1
  | Gt => q + 1
  end.

(** The exponent of the last place of [X] for precision [p], never below
    [z]. *)
Definition cexp (p z X : Z) : Z := Z.max (Z.log2 X + 1 - p) z.

(** [X] rounded to nearest, ties to even, at precision [p]. *)
Definition RN (p z X : Z) : Z := rne X (2 ^ cexp p z X) * 2 ^ cexp p z X.

(** What the record holds after [n] shifts of [m]: the quotient, and the
    position of the remainder with respect to the half. *)
Definition shr_inv (m n : Z) (mrs : shr_record) : Prop :=
  0 <= shr_m mrs /\
  0 <= m - shr_m mrs * 2 ^ n < 2 ^ n /\
  shr_r mrs = (2 ^ n <=? 2 * (m - shr_m mrs * 2 ^ n)) /\
  shr_s mrs = andb (negb (m - shr_m mrs * 2 ^ n =? 0))
                   (negb (2 * (m - shr_m mrs * 2 ^ n) =? 2 ^ n)).

(** The value of a non-negative finite float, in units of [2 ^ (- bias)]. *)
Definition fval (bias : Z) (f : spec_float) : option Z :=
  match f with
  | S754_zero _ => Some 0
  | S754_finite false m e => Some (Z.pos m * 2 ^ (e + bias))
  | _ => None
  end.

Definition RNb (prec emax bias X : Z) : Z :=
  RN prec (SpecFloat.emin prec emax + bias) X.

(** The first value too large for a finite float. *)
Definition top (emax bias : Z) : Z := 2 ^ (emax + bias).

(** The float [1.] at precision [prec]. *)
Definition one (prec : Z) : spec_float :=
  S754_finite false (Z.to_pos (2 ^ (prec - 1))) (1 - prec).

(** * Properties *)

(** ** Order of floats *)

Lemma SFcompare_antisym (x y : float) :
  SFcompare y x = CompOpp <$> SFcompare x y.
Proof.
  destruct x as [sx|sx| |sx mx ex], y as [sy|sy| |sy my ey]; simpl;
    try (destruct sx; reflexivity); try (destruct sy; reflexivity);
    try (destruct sx, sy; reflexivity); try reflexivity.
  change (PosDef.Pos.compare_cont Eq mx my) with (Pos.compare mx my).
  change (PosDef.Pos.compare_cont Eq my mx) with (Pos.compare my mx).
  rewrite (Z.compare_antisym ex ey), (Pos.compare_antisym mx my).
  destruct sx, sy; simpl; try reflexivity;
    destruct (ex ?= ey); simpl; try reflexivity;
    destruct (mx ?= my)%positive; reflexivity.
Qed.


Ltac float_cases :=
  repeat match goal with
         | H : context [PosDef.Pos.compare_cont Eq ?a ?b] |- _ =>
             change (PosDef.Pos.compare_cont Eq a b) with (Pos.compare a b) in H
         | |- context [PosDef.Pos.compare_cont Eq ?a ?b] =>
             change (PosDef.Pos.compare_cont Eq a b) with (Pos.compare a b)
         end;
  repeat match goal with
         | H : context [Z.compare ?a ?b] |- _ =>
             destruct (Z.compare_spec a b); simpl in H; try discriminate H
         | H : context [Pos.compare ?a ?b] |- _ =>
             destruct (Pos.compare_spec a b); simpl in H; try discriminate H
         | |- context [Z.compare ?a ?b] =>
             destruct (Z.compare_spec a b); simpl
         | |- context [Pos.compare ?a ?b] =>
             destruct (Pos.compare_spec a b); simpl
         end;
  try reflexivity; try discriminate; try lia.

Lemma SFcompare_not_nan (x y : float) :
  is_nan x = false -> is_nan y = false -> is_Some (SFcompare x y).
Proof.
  destruct x as [| | |], y as [| | |]; simpl; try discriminate; eauto.
Qed.

Lemma fle_refl (x : float) : is_nan x = false -> fle x x = true.
Proof.
  destruct x as [s|s| |s m e]; try discriminate; intros _;
    unfold fle, SFleb; simpl; try reflexivity.
  - destruct s; reflexivity.
  - destruct s; float_cases.
Qed.

Lemma not_fle_flt (x y : float) :
  is_nan x = false -> is_nan y = false -> fle x y = false -> flt y x = true.
Proof.
  intros Hx Hy. unfold fle, flt, SFleb, SFltb. rewrite (SFcompare_antisym x y).
  destruct (SFcompare_not_nan x y Hx Hy) as [c ->]. destruct c; simpl; congruence.
Qed.

Lemma flt_fle (x y : float) : flt x y = true -> fle x y = true.
Proof.
  unfold fle, flt, SFleb, SFltb. destruct (SFcompare x y) as [[]|]; congruence.
Qed.

Lemma fle_flt_trans (x y z : float) :
  fle x y = true -> flt y z = true -> flt x z = true.
Proof.
  unfold fle, flt, SFleb, SFltb.
  destruct x as [sx|sx| |sx mx ex], y as [sy|sy| |sy my ey],
           z as [sz|sz| |sz mz ez]; simpl;
    try discriminate; try reflexivity;
    try (destruct sx; simpl; try discriminate; try reflexivity);
    try (destruct sy; simpl; try discriminate; try reflexivity);
    try (destruct sz; simpl; try discriminate; try reflexivity);
    intros H1 H2; float_cases.
Qed.

(** ** Rounding to nearest on integers *)

Section RoundZ.

Variables p z : Z.
Hypothesis Hp : 0 < p.
Hypothesis Hz : 0 <= z.

Local Abbreviation cexp := (cexp p z).
Local Abbreviation RN := (RN p z).



Lemma rne_bounds X D : 0 < D -> X / D <= rne X D <= X / D + 1.
Proof.
  intros HD. unfold rne.
  destruct (2 * (X mod D) ?= D); [destruct (Z.even (X / D))| |]; lia.
Qed.

Lemma rne_exact X D : 0 < D -> X mod D = 0 -> rne X D = X / D.
Proof.
  intros HD H0. unfold rne. rewrite H0.
  destruct (Z.compare_spec (2 * 0) D); try lia.
Qed.

Lemma rne_mono X Y D : 0 < D -> X <= Y -> rne X D <= rne Y D.
Proof.
  intros HD HXY.
  pose proof (Z.div_le_mono X Y D HD HXY) as Hq.
  destruct (Z.eq_dec (X / D) (Y / D)) as [Heq|Hne].
  - assert (Hr : X mod D <= Y mod D).
    { pose proof (Z.div_mod X D ltac:(lia)). pose proof (Z.div_mod Y D ltac:(lia)).
      rewrite Heq in *. lia. }
    unfold rne. rewrite Heq.
    destruct (Z.compare_spec (2 * (X mod D)) D);
      destruct (Z.compare_spec (2 * (Y mod D)) D);
      destruct (Z.even (Y / D)); lia.
  - pose proof (rne_bounds X D HD). pose proof (rne_bounds Y D HD). lia.
Qed.

Lemma rne_mul X D : 0 < D -> rne (X * D) D = X.
Proof.
  intros HD. rewrite rne_exact by (try apply Z.mod_mul; lia).
  apply Z.div_mul. lia.
Qed.

Lemma cexp_nonneg X : 0 <= cexp X.
Proof. unfold cexp. lia. Qed.

Lemma cexp_mono X Y : X <= Y -> cexp X <= cexp Y.
Proof.
  intros H. unfold cexp. pose proof (Z.log2_le_mono X Y H). lia.
Qed.

Lemma RN_mono X Y : 0 < X -> X <= Y -> RN X <= RN Y.
Proof.
  intros HX HXY. unfold RN.
  pose proof (cexp_mono X Y HXY) as Hc.
  pose proof (cexp_nonneg X) as HcX.
  destruct (Z.eq_dec (cexp X) (cexp Y)) as [Heq|Hne].
  - rewrite Heq. apply Z.mul_le_mono_nonneg_r; [apply Z.pow_nonneg; lia|].
    apply rne_mono; [apply Z.pow_pos_nonneg; lia|exact HXY].
  - (* X lies below the binade of Y *)
    assert (HcY : cexp Y = Z.log2 Y + 1 - p) by (unfold cexp in *; lia).
    assert (HlX : Z.log2 X < Z.log2 Y) by (unfold cexp in *; lia).
    set (b := Z.log2 Y) in *.
    assert (Hb0 : 0 <= b) by apply Z.log2_nonneg.
    assert (HYlo : 2 ^ b <= Y) by (apply Z.log2_spec; lia).
    assert (HXhi : X < 2 ^ b).
    { pose proof (Z.log2_spec X HX) as [_ Hhi].
      eapply Z.lt_le_trans; [exact Hhi|].
      apply Z.pow_le_mono_r; lia. }
    assert (HcXb : cexp X <= b) by (unfold cexp in *; lia).
    assert (HcYb : cexp Y <= b) by lia.
    apply Z.le_trans with (2 ^ b).
    + replace (2 ^ b) with (2 ^ (b - cexp X) * 2 ^ cexp X)
        by (rewrite <- Z.pow_add_r by lia; f_equal; lia).
      apply Z.mul_le_mono_nonneg_r; [apply Z.pow_nonneg; lia|].
      rewrite <- (rne_mul (2 ^ (b - cexp X)) (2 ^ cexp X))
        by (apply Z.pow_pos_nonneg; lia).
      apply rne_mono; [apply Z.pow_pos_nonneg; lia|].
      rewrite <- Z.pow_add_r by lia.
      replace (b - cexp X + cexp X) with b by lia. lia.
    + replace (2 ^ b) with (2 ^ (b - cexp Y) * 2 ^ cexp Y)
        by (rewrite <- Z.pow_add_r by lia; f_equal; lia).
      apply Z.mul_le_mono_nonneg_r; [apply Z.pow_nonneg; lia|].
      rewrite <- (rne_mul (2 ^ (b - cexp Y)) (2 ^ cexp Y)) at 1
        by (apply Z.pow_pos_nonneg; lia).
      apply rne_mono; [apply Z.pow_pos_nonneg; lia|].
      rewrite <- Z.pow_add_r by lia.
      replace (b - cexp Y + cexp Y) with b by lia. lia.
Qed.

Lemma RN_exact X : X mod 2 ^ cexp X = 0 -> RN X = X.
Proof.
  intros H. unfold RN.
  pose proof (cexp_nonneg X).
  rewrite rne_exact by (try assumption; apply Z.pow_pos_nonneg; lia).
  pose proof (Z.div_mod X (2 ^ cexp X)
                ltac:(pose proof (Z.pow_pos_nonneg 2 (cexp X)); lia)).
  lia.
Qed.

Lemma RN_nonneg X : 0 <= X -> 0 <= RN X.
Proof.
  intros HX. unfold RN. pose proof (cexp_nonneg X).
  assert (0 < 2 ^ cexp X) by (apply Z.pow_pos_nonneg; lia).
  pose proof (rne_bounds X (2 ^ cexp X) ltac:(lia)).
  pose proof (Z.div_pos X (2 ^ cexp X) HX ltac:(lia)).
  apply Z.mul_nonneg_nonneg; lia.
Qed.

End RoundZ.

(** ** The rounding of [SpecFloat] *)

Section Shifts.

Local Arguments Z.mul : simpl never.
Local Arguments Z.add : simpl never.
Local Arguments Z.sub : simpl never.
Local Arguments Z.pow : simpl never.
Local Arguments Z.leb : simpl never.
Local Arguments Z.eqb : simpl never.
Local Arguments Z.compare : simpl never.
Local Arguments Z.div : simpl never.
Local Arguments Z.modulo : simpl never.
Local Arguments Z.max : simpl never.
Local Arguments Z.min : simpl never.

Lemma iter_pos_nat {A} (f : A -> A) (p : positive) (x : A) :
  SpecFloat.iter_pos f p x = Nat.iter (Pos.to_nat p) f x.
Proof.
  revert x. induction p as [p IH|p IH|]; intros x; cbn [SpecFloat.iter_pos].
  - rewrite !IH, Pos2Nat.inj_xI.
    replace (S (2 * Pos.to_nat p)) with (Pos.to_nat p + S (Pos.to_nat p))%nat by lia.
    rewrite Nat.iter_add, Nat.iter_succ_r. reflexivity.
  - rewrite !IH, Pos2Nat.inj_xO.
    replace (2 * Pos.to_nat p)%nat with (Pos.to_nat p + Pos.to_nat p)%nat by lia.
    rewrite Nat.iter_add. reflexivity.
  - reflexivity.
Qed.


Lemma shr_inv_0 m : 0 <= m -> shr_inv m 0 (shr_record_of_loc m loc_Exact).
Proof.
  intros Hm. unfold shr_inv. simpl. rewrite Z.mul_1_r, Z.sub_diag. simpl.
  repeat split; lia.
Qed.

Lemma shr_1_inv m n mrs :
  0 <= n -> shr_inv m n mrs -> shr_inv m (n + 1) (shr_1 mrs).
Proof.
  intros Hn (Hq & Hrem & Hr & Hs).
  assert (Hpow : 2 ^ (n + 1) = 2 * 2 ^ n) by (rewrite Z.pow_add_r by lia; lia).
  assert (Hpos : 0 < 2 ^ n) by (apply Z.pow_pos_nonneg; lia).
  unfold shr_inv. rewrite Hpow.
  destruct mrs as [q r s]. simpl in *.
  assert (Hors : orb r s = negb (m - q * 2 ^ n =? 0)).
  { rewrite Hr, Hs.
    destruct (Z.leb_spec (2 ^ n) (2 * (m - q * 2 ^ n)));
      destruct (Z.eqb_spec (m - q * 2 ^ n) 0);
      destruct (Z.eqb_spec (2 * (m - q * 2 ^ n)) (2 ^ n)); simpl; try reflexivity; lia. }
  destruct q as [|[q'|q'|]|q']; simpl; try lia; rewrite Hors;
    repeat match goal with
           | |- context [Z.leb ?a ?b] => destruct (Z.leb_spec a b)
           | |- context [Z.eqb ?a ?b] => destruct (Z.eqb_spec a b)
           end; simpl; repeat split; try reflexivity; try lia.
Qed.

Lemma shr_iter_inv m (k : nat) :
  0 <= m ->
  shr_inv m (Z.of_nat k) (Nat.iter k shr_1 (shr_record_of_loc m loc_Exact)).
Proof.
  intros Hm. induction k as [|k IH].
  - apply shr_inv_0, Hm.
  - rewrite Nat2Z.inj_succ. simpl Nat.iter. apply shr_1_inv; [lia|exact IH].
Qed.

Lemma shr_inv_rne m n mrs :
  0 <= n -> shr_inv m n mrs ->
  round_nearest_even (shr_m mrs) (loc_of_shr_record mrs) = rne m (2 ^ n).
Proof.
  intros Hn (Hq & Hrem & Hr & Hs).
  assert (Hpos : 0 < 2 ^ n) by (apply Z.pow_pos_nonneg; lia).
  destruct mrs as [q r s]. simpl in *.
  assert (Hdiv : m / 2 ^ n = q).
  { symmetry. apply (Z.div_unique m (2 ^ n) q (m - q * 2 ^ n)); lia. }
  assert (Hmod : m mod 2 ^ n = m - q * 2 ^ n).
  { symmetry. apply (Z.mod_unique m (2 ^ n) q (m - q * 2 ^ n)); lia. }
  unfold rne. rewrite Hdiv, Hmod. subst r s.
  destruct (Z.compare_spec (2 * (m - q * 2 ^ n)) (2 ^ n));
    destruct (Z.leb_spec (2 ^ n) (2 * (m - q * 2 ^ n)));
    destruct (Z.eqb_spec (m - q * 2 ^ n) 0);
    destruct (Z.eqb_spec (2 * (m - q * 2 ^ n)) (2 ^ n)); simpl;
    try reflexivity; lia.
Qed.

(** Shifting [m] to the exponent [e + n] and rounding what was lost. *)
Lemma shr_rne m e n :
  0 <= m -> 0 <= n ->
  let '(mrs, e') := shr (shr_record_of_loc m loc_Exact) e n in
  e' = e + n /\
  round_nearest_even (shr_m mrs) (loc_of_shr_record mrs) = rne m (2 ^ n).
Proof.
  intros Hm Hn. unfold shr. destruct n as [|p|p]; try lia.
  - split; [lia|]. apply (shr_inv_rne m 0); [lia|apply shr_inv_0, Hm].
  - split; [reflexivity|]. rewrite iter_pos_nat.
    rewrite <- (positive_nat_Z p). apply shr_inv_rne; [lia|].
    apply shr_iter_inv, Hm.
Qed.

Lemma digits2_size (m : positive) : digits2_pos m = Pos.size m.
Proof. induction m as [m IH|m IH|]; simpl; congruence. Qed.

Lemma Zdigits2_log2 (x : Z) : 0 < x -> Zdigits2 x = Z.log2 x + 1.
Proof.
  destruct x as [|m|m]; try lia. intros _. simpl Zdigits2.
  rewrite digits2_size.
  destruct m as [m|m|]; simpl; rewrite ?Pos2Z.inj_succ; try lia.
Qed.

Lemma Zdigits2_bounds (x : Z) :
  0 < x -> 2 ^ (Zdigits2 x - 1) <= x < 2 ^ Zdigits2 x.
Proof.
  intros Hx. rewrite (Zdigits2_log2 x Hx).
  replace (Z.log2 x + 1 - 1) with (Z.log2 x) by lia.
  replace (Z.log2 x + 1) with (Z.succ (Z.log2 x)) by lia.
  apply Z.log2_spec, Hx.
Qed.

Lemma Zdigits2_pos (x : Z) : 0 < x -> 0 < Zdigits2 x.
Proof.
  intros Hx. rewrite (Zdigits2_log2 x Hx). pose proof (Z.log2_nonneg x). lia.
Qed.

Lemma Zdigits2_unique (x d : Z) :
  0 < d -> 2 ^ (d - 1) <= x < 2 ^ d -> Zdigits2 x = d.
Proof.
  intros Hd Hx.
  assert (0 < x) by (pose proof (Z.pow_pos_nonneg 2 (d - 1)); lia).
  rewrite Zdigits2_log2 by assumption.
  rewrite (Z.log2_unique x (d - 1)); [lia|lia|].
  replace (Z.succ (d - 1)) with d by lia. exact Hx.
Qed.

Lemma Zdigits2_le (x d : Z) : 0 < x -> 0 <= d -> x < 2 ^ d -> Zdigits2 x <= d.
Proof.
  intros Hx Hd Hlt. pose proof (Zdigits2_bounds x Hx) as [Hlo _].
  destruct (Z.le_gt_cases (Zdigits2 x) d) as [|Hgt]; [assumption|].
  assert (2 ^ d <= 2 ^ (Zdigits2 x - 1)) by (apply Z.pow_le_mono_r; lia). lia.
Qed.

Section Round.

Variables prec emax : Z.
Hypothesis Hprec : 0 < prec.
Hypothesis Hemax : prec < emax.

Local Abbreviation emin := (SpecFloat.emin prec emax).
Local Abbreviation fexp := (SpecFloat.fexp prec emax).

Lemma fexp_ge_emin x : emin <= fexp x.
Proof. unfold fexp, SpecFloat.fexp, emin. lia. Qed.

Lemma fexp_ge x : x - prec <= fexp x.
Proof. unfold fexp, SpecFloat.fexp. lia. Qed.

Lemma fexp_cases x :
  (fexp x = emin /\ x - prec <= emin) \/ (fexp x = x - prec /\ emin < x - prec).
Proof. unfold fexp, SpecFloat.fexp, emin. lia. Qed.

(** The mantissa after the first shift and rounding is at most [2 ^ prec],
    and has [prec] digits away from the subnormal range. *)
Lemma rne_mantissa_bounds (m e : Z) :
  0 < m ->
  let E := fexp (Zdigits2 m + e) in
  e <= E ->
  0 <= rne m (2 ^ (E - e)) <= 2 ^ prec /\
  (emin < E -> 2 ^ (prec - 1) <= rne m (2 ^ (E - e))).
Proof.
  intros Hm E HeE.
  set (d := Zdigits2 m) in *. set (k := E - e).
  assert (Hk : 0 <= k) by (unfold k; lia).
  assert (Hd : 0 < d) by (apply Zdigits2_pos, Hm).
  pose proof (Zdigits2_bounds m Hm) as [Hlo Hhi]. fold d in Hlo, Hhi.
  assert (Hpk : 0 < 2 ^ k) by (apply Z.pow_pos_nonneg; lia).
  pose proof (rne_bounds m (2 ^ k) Hpk) as [Hq1 Hq2].
  pose proof (fexp_ge (d + e)) as HE1. fold E in HE1.
  assert (Hfloor : m / 2 ^ k < 2 ^ prec).
  { apply Z.div_lt_upper_bound; [exact Hpk|].
    eapply Z.lt_le_trans; [exact Hhi|].
    rewrite <- Z.pow_add_r by lia. apply Z.pow_le_mono_r; unfold k; lia. }
  split.
  - split; [|lia]. pose proof (Z.div_pos m (2 ^ k) ltac:(lia) Hpk). lia.
  - intros HE.
    destruct (fexp_cases (d + e)) as [[H1 _]|[H1 _]]; fold E in H1; [lia|].
    assert (Hkd : k = d - prec) by (unfold k; lia).
    eapply Z.le_trans; [|exact Hq1].
    apply Z.div_le_lower_bound; [exact Hpk|].
    rewrite <- Z.pow_add_r by lia.
    replace (k + (prec - 1)) with (d - 1) by lia. exact Hlo.
Qed.

Lemma shr_exact_0 (q e : Z) :
  fexp (Zdigits2 q + e) <= e ->
  shr_fexp prec emax q e loc_Exact = (shr_record_of_loc q loc_Exact, e).
Proof.
  intros H. unfold shr_fexp, shr. fold fexp.
  destruct (fexp (Zdigits2 q + e) - e) eqn:E; try reflexivity. lia.
Qed.

Lemma round_aux_spec (s : bool) (m e : Z) :
  0 < m ->
  let E := fexp (Zdigits2 m + e) in
  let q := rne m (2 ^ (E - e)) in
  e <= E ->
  (q = 0 /\ binary_round_aux prec emax s m e loc_Exact = S754_zero s) \/
  (0 < q < 2 ^ prec /\
   fexp (Zdigits2 q + E) = E /\
   binary_round_aux prec emax s m e loc_Exact
   = if E <=? emax - prec then S754_finite s (Z.to_pos q) E
     else S754_infinity s) \/
  (q = 2 ^ prec /\
   binary_round_aux prec emax s m e loc_Exact
   = if E + 1 <=? emax - prec
     then S754_finite s (Z.to_pos (2 ^ (prec - 1))) (E + 1)
     else S754_infinity s).
Proof.
  intros Hm E q HeE.
  pose proof (rne_mantissa_bounds m e Hm HeE) as [[Hq0 Hq1] Hqn].
  fold E in Hq0, Hq1, Hqn. fold q in Hq0, Hq1, Hqn.
  pose proof (fexp_ge_emin (Zdigits2 m + e)) as HEmin. fold E in HEmin.
  assert (Haux : binary_round_aux prec emax s m e loc_Exact
                 = let '(mrs'', e'') := shr_fexp prec emax q E loc_Exact in
                   match shr_m mrs'' with
                   | 0 => S754_zero s
                   | Z.pos m0 =>
                       if e'' <=? emax - prec then S754_finite s m0 e''
                       else S754_infinity s
                   | Z.neg _ => S754_nan
                   end).
  { unfold binary_round_aux.
    pose proof (shr_rne m e (E - e) ltac:(lia) ltac:(lia)) as Hshr.
    unfold shr_fexp at 1. fold fexp. fold E.
    destruct (shr (shr_record_of_loc m loc_Exact) e (E - e)) as [mrs e'].
    destruct Hshr as [He' Hrne]. rewrite Hrne. fold q.
    replace e' with E by lia. reflexivity. }
  rewrite Haux. clear Haux.
  destruct (Z.eq_dec q 0) as [Hz|Hnz].
  - left. split; [exact Hz|]. rewrite Hz.
    rewrite shr_exact_0.
    + reflexivity.
    + simpl Zdigits2. unfold fexp, SpecFloat.fexp. fold emin. lia.
  - right. destruct (Z.eq_dec q (2 ^ prec)) as [Hc|Hnc].
    + right. split; [exact Hc|]. rewrite Hc.
      assert (Hdig : Zdigits2 (2 ^ prec) = prec + 1).
      { apply Zdigits2_unique; [lia|].
        replace (prec + 1 - 1) with prec by lia.
        split; [lia|]. apply Z.pow_lt_mono_r; lia. }
      assert (Hf : fexp (prec + 1 + E) = E + 1)
        by (unfold fexp, SpecFloat.fexp; fold emin; lia).
      unfold shr_fexp. fold fexp. rewrite Hdig, Hf.
      replace (E + 1 - E) with 1 by lia.
      unfold shr. cbn [SpecFloat.iter_pos].
      assert (Hpow0 : 0 <= 2 ^ prec) by (apply Z.pow_nonneg; lia).
      pose proof (shr_1_inv (2 ^ prec) 0 (shr_record_of_loc (2 ^ prec) loc_Exact)
                    ltac:(lia) (shr_inv_0 (2 ^ prec) Hpow0)) as (Hi0 & Hi1 & _).
      replace (2 ^ (0 + 1)) with 2 in Hi1 by reflexivity.
      assert (Hpp : 2 ^ prec = 2 * 2 ^ (prec - 1)).
      { rewrite <- Z.pow_succ_r by lia. f_equal. lia. }
      assert (Hm' : shr_m (shr_1 (shr_record_of_loc (2 ^ prec) loc_Exact))
                    = 2 ^ (prec - 1)) by lia.
      rewrite Hm'.
      assert (0 < 2 ^ (prec - 1)) by (apply Z.pow_pos_nonneg; lia).
      destruct (2 ^ (prec - 1)) as [|pp|pp] eqn:Epp; try lia.
      reflexivity.
    + left. assert (Hq : 0 < q < 2 ^ prec) by lia.
      split; [exact Hq|].
      assert (Hcan : fexp (Zdigits2 q + E) = E).
      { pose proof (Zdigits2_le q prec ltac:(lia) ltac:(lia) ltac:(lia)).
        destruct (Z.eq_dec E emin) as [HE|HE].
        - unfold fexp, SpecFloat.fexp. fold emin. lia.
        - specialize (Hqn ltac:(lia)).
          rewrite (Zdigits2_unique q prec); try lia.
          unfold fexp, SpecFloat.fexp. fold emin. lia. }
      split; [exact Hcan|].
      rewrite shr_exact_0 by lia.
      cbn [shr_m shr_record_of_loc].
      destruct q as [|pq|pq]; try lia. reflexivity.
Qed.

End Round.

Lemma rne_scale X D c : 0 < D -> 0 < c -> rne (X * c) (D * c) = rne X D.
Proof.
  intros HD Hc. unfold rne.
  rewrite Z.div_mul_cancel_r by lia.
  rewrite Z.mul_mod_distr_r by lia.
  destruct (Z.compare_spec (2 * (X mod D * c)) (D * c));
    destruct (Z.compare_spec (2 * (X mod D)) D); try reflexivity; nia.
Qed.

Lemma rne_0 D : 0 < D -> rne 0 D = 0.
Proof. intros HD. apply rne_exact; [exact HD|apply Z.mod_0_l; lia]. Qed.

Lemma pos_iter_xO (m d : positive) :
  Z.pos (Pos.iter xO m d) = Z.pos m * 2 ^ Z.pos d.
Proof.
  induction d as [|d IH] using Pos.peano_ind.
  - simpl. lia.
  - rewrite Pos.iter_succ, Pos2Z.inj_xO, IH, Pos2Z.inj_succ, Z.pow_succ_r by lia.
    lia.
Qed.

Lemma shl_align_spec (m : positive) (e e' : Z) :
  snd (shl_align m e e') = Z.min e e' /\
  Z.pos (fst (shl_align m e e')) = Z.pos m * 2 ^ (e - Z.min e e').
Proof.
  unfold shl_align. destruct (e' - e) as [|d|d] eqn:Hd; simpl.
  - replace (Z.min e e') with e by lia. rewrite Z.sub_diag. simpl. lia.
  - replace (Z.min e e') with e by lia. rewrite Z.sub_diag. simpl. lia.
  - replace (Z.min e e') with e' by lia. split; [reflexivity|].
    rewrite pos_iter_xO. f_equal. f_equal. lia.
Qed.

Section Values.

Variables prec emax bias : Z.
Hypothesis Hprec : 0 < prec.
Hypothesis Hemax : prec < emax.

Local Abbreviation emin := (SpecFloat.emin prec emax).
Local Abbreviation fexp := (SpecFloat.fexp prec emax).

Hypothesis Hbias : prec - emin <= bias.

Local Abbreviation fval := (fval bias).
Local Abbreviation RNb := (RNb prec emax bias).
Local Abbreviation top := (top emax bias).
Local Abbreviation one := (one prec).




Lemma emin_le : emin <= 1 - prec /\ emin <= emax - prec /\ 0 <= emin + bias.
Proof. unfold emin, SpecFloat.emin in *. lia. Qed.

Lemma cexp_scaled (m e : Z) :
  0 < m -> 0 <= e + bias ->
  cexp prec (emin + bias) (m * 2 ^ (e + bias)) = fexp (Zdigits2 m + e) + bias.
Proof.
  intros Hm He. unfold cexp. rewrite Z.log2_mul_pow2 by lia.
  rewrite (Zdigits2_log2 m Hm). unfold fexp, SpecFloat.fexp. fold emin. lia.
Qed.

Lemma RNb_scaled (m e : Z) :
  0 < m -> 0 <= e + bias ->
  let E := fexp (Zdigits2 m + e) in
  e <= E ->
  RNb (m * 2 ^ (e + bias)) = rne m (2 ^ (E - e)) * 2 ^ (E + bias).
Proof.
  intros Hm He E HeE. unfold RNb, RN. rewrite cexp_scaled by assumption.
  fold E. f_equal.
  replace (2 ^ (E + bias)) with (2 ^ (E - e) * 2 ^ (e + bias))
    by (rewrite <- Z.pow_add_r by lia; f_equal; lia).
  apply rne_scale; apply Z.pow_pos_nonneg; lia.
Qed.

Lemma RNb_0 : RNb 0 = 0.
Proof.
  unfold RNb, RN. rewrite rne_0; [reflexivity|].
  apply Z.pow_pos_nonneg; [lia|apply cexp_nonneg]. pose proof emin_le. lia.
Qed.

Lemma round_aux_val (m e : Z) :
  0 < m -> 0 <= e + bias -> e <= fexp (Zdigits2 m + e) ->
  RNb (m * 2 ^ (e + bias)) < top ->
  fval (binary_round_aux prec emax false m e loc_Exact)
    = Some (RNb (m * 2 ^ (e + bias))) /\
  valid_binary prec emax (binary_round_aux prec emax false m e loc_Exact) = true.
Proof.
  intros Hm He HeE Htop. pose proof emin_le as (Hm1 & Hm2 & Hm3).
  rewrite (RNb_scaled m e Hm He HeE) in *.
  pose proof (fexp_ge_emin prec emax (Zdigits2 m + e)) as HEmin.
  fold emin fexp in HEmin.
  set (E := fexp (Zdigits2 m + e)) in *.
  set (q := rne m (2 ^ (E - e))) in *.
  pose proof (round_aux_spec prec emax Hprec false m e Hm HeE) as Hspec.
  cbv zeta in Hspec.
  change (SpecFloat.fexp prec emax) with fexp in Hspec.
  change (fexp (Zdigits2 m + e)) with E in Hspec.
  change (rne m (2 ^ (E - e))) with q in Hspec.
  destruct Hspec as [[Hq ->]|[(Hq & Hcan & ->)|[Hq ->]]].
  - rewrite Hq. split; reflexivity.
  - assert (HE : E <= emax - prec).
    { destruct (Z.le_gt_cases E (emax - prec)) as [|Hgt]; [assumption|exfalso].
      assert (Hd : Zdigits2 q = prec).
      { pose proof (fexp_cases prec emax (Zdigits2 q + E)) as Hc.
        change (SpecFloat.fexp prec emax) with fexp in Hc.
        change (SpecFloat.emin prec emax) with emin in Hc. lia. }
      pose proof (Zdigits2_bounds q ltac:(lia)) as [Hlo _]. rewrite Hd in Hlo.
      assert (2 ^ (prec - 1) * 2 ^ (E + bias) <= q * 2 ^ (E + bias)).
      { apply Z.mul_le_mono_nonneg_r; [apply Z.pow_nonneg; lia|exact Hlo]. }
      rewrite <- Z.pow_add_r in H by lia.
      assert (top <= 2 ^ (prec - 1 + (E + bias)))
        by (apply Z.pow_le_mono_r; lia).
      lia. }
    destruct (Z.leb_spec E (emax - prec)); [|lia].
    destruct q as [|pq|pq]; try lia. simpl Z.to_pos. split; [reflexivity|].
    unfold valid_binary, bounded, canonical_mantissa.
    change (Z.pos (digits2_pos pq)) with (Zdigits2 (Z.pos pq)).
    fold fexp. rewrite Hcan, Z.eqb_refl. simpl.
    apply Z.leb_le. assumption.
  - rewrite Hq in *.
    rewrite <- Z.pow_add_r in Htop by lia.
    assert (HE : prec + (E + bias) < emax + bias).
    { apply (Z.pow_lt_mono_r_iff 2); [lia|lia|exact Htop]. }
    destruct (Z.leb_spec (E + 1) (emax - prec)); [|lia].
    assert (Hpp : 0 < 2 ^ (prec - 1)) by (apply Z.pow_pos_nonneg; lia).
    assert (Hdig : Zdigits2 (2 ^ (prec - 1)) = prec).
    { apply Zdigits2_unique; [lia|]. split; [lia|].
      apply Z.pow_lt_mono_r; lia. }
    destruct (2 ^ (prec - 1)) as [|pp|pp] eqn:Epp; try lia.
    simpl Z.to_pos. split.
    + simpl. f_equal. rewrite <- Epp, <- !Z.pow_add_r by lia. f_equal. lia.
    + unfold valid_binary, bounded, canonical_mantissa.
      change (Z.pos (digits2_pos pp)) with (Zdigits2 (Z.pos pp)).
      rewrite Hdig.
      assert (Hf : SpecFloat.fexp prec emax (prec + (E + 1)) = E + 1)
        by (unfold SpecFloat.fexp; fold emin; lia).
      rewrite Hf, Z.eqb_refl. simpl. apply Z.leb_le. lia.
Qed.

Lemma binary_round_val (m : positive) (e : Z) :
  0 <= e + bias ->
  RNb (Z.pos m * 2 ^ (e + bias)) < top ->
  fval (binary_round prec emax false m e)
    = Some (RNb (Z.pos m * 2 ^ (e + bias))) /\
  valid_binary prec emax (binary_round prec emax false m e) = true.
Proof.
  intros He Htop. pose proof emin_le as (Hm1 & Hm2 & Hm3).
  unfold binary_round.
  pose proof (shl_align_spec m e (SpecFloat.fexp prec emax (Z.pos (digits2_pos m) + e)))
    as [Hez Hmz].
  fold fexp in Hez, Hmz |- *.
  destruct (shl_align m e (fexp (Z.pos (digits2_pos m) + e))) as [mz ez].
  simpl in Hez, Hmz.
  pose proof (fexp_ge_emin prec emax (Z.pos (digits2_pos m) + e)) as HEmin.
  fold emin fexp in HEmin.
  set (E := fexp (Z.pos (digits2_pos m) + e)) in *.
  assert (Hval : Z.pos mz * 2 ^ (ez + bias) = Z.pos m * 2 ^ (e + bias)).
  { rewrite Hmz, <- Z.mul_assoc, <- Z.pow_add_r by lia. f_equal. f_equal. lia. }
  assert (Hdig : Zdigits2 (Z.pos mz) + ez = Z.pos (digits2_pos m) + e).
  { change (Z.pos (digits2_pos m)) with (Zdigits2 (Z.pos m)).
    rewrite !Zdigits2_log2 by lia. rewrite Hmz.
    rewrite Z.log2_mul_pow2 by lia. lia. }
  rewrite <- Hval in *.
  apply round_aux_val; try lia.
  rewrite Hdig. fold E. lia.
Qed.

Lemma normalize_val (mz e : Z) :
  0 <= mz -> 0 <= e + bias ->
  RNb (mz * 2 ^ (e + bias)) < top ->
  fval (binary_normalize prec emax mz e false)
    = Some (RNb (mz * 2 ^ (e + bias))) /\
  valid_binary prec emax (binary_normalize prec emax mz e false) = true.
Proof.
  intros Hmz He Htop. destruct mz as [|m|m]; try lia.
  - simpl. rewrite Z.mul_0_l, RNb_0. split; reflexivity.
  - apply binary_round_val; assumption.
Qed.


Lemma round_aux_overflow (m e : Z) :
  0 < m -> 0 <= e + bias -> e <= fexp (Zdigits2 m + e) ->
  top <= RNb (m * 2 ^ (e + bias)) ->
  binary_round_aux prec emax false m e loc_Exact = S754_infinity false.
Proof.
  intros Hm He HeE Htop. pose proof emin_le as (Hm1 & Hm2 & Hm3).
  rewrite (RNb_scaled m e Hm He HeE) in *.
  pose proof (fexp_ge_emin prec emax (Zdigits2 m + e)) as HEmin.
  fold emin fexp in HEmin.
  set (E := fexp (Zdigits2 m + e)) in *.
  set (q := rne m (2 ^ (E - e))) in *.
  pose proof (round_aux_spec prec emax Hprec false m e Hm HeE) as Hspec.
  cbv zeta in Hspec.
  change (SpecFloat.fexp prec emax) with fexp in Hspec.
  change (fexp (Zdigits2 m + e)) with E in Hspec.
  change (rne m (2 ^ (E - e))) with q in Hspec.
  assert (Htop0 : 0 < top) by (apply Z.pow_pos_nonneg; lia).
  assert (Hlt : forall a b, 0 <= a -> 0 <= b -> 2 ^ a < 2 ^ b -> a < b).
  { intros a b Ha Hb Hab. apply (Z.pow_lt_mono_r_iff 2); lia. }
  destruct Hspec as [[Hq ->]|[(Hq & Hcan & ->)|[Hq ->]]].
  - rewrite Hq in Htop. lia.
  - assert (HE : emax - prec < E).
    { assert (q * 2 ^ (E + bias) < 2 ^ prec * 2 ^ (E + bias)).
      { apply Z.mul_lt_mono_pos_r; [apply Z.pow_pos_nonneg; lia|lia]. }
      rewrite <- Z.pow_add_r in H by lia.
      assert (emax + bias < prec + (E + bias))
        by (apply Hlt; try lia; unfold top in Htop; lia).
      lia. }
    destruct (Z.leb_spec E (emax - prec)); [lia|reflexivity].
  - rewrite Hq, <- Z.pow_add_r in Htop by lia.
    assert (emax + bias <= prec + (E + bias)).
    { apply (Z.pow_le_mono_r_iff 2); [lia|lia|exact Htop]. }
    destruct (Z.leb_spec (E + 1) (emax - prec)); [lia|reflexivity].
Qed.

Lemma normalize_overflow (mz e : Z) :
  0 <= mz -> 0 <= e + bias ->
  top <= RNb (mz * 2 ^ (e + bias)) ->
  binary_normalize prec emax mz e false = S754_infinity false.
Proof.
  intros Hmz He Htop. pose proof emin_le as (Hm1 & Hm2 & Hm3).
  assert (Htop0 : 0 < top) by (apply Z.pow_pos_nonneg; lia).
  destruct mz as [|m|m]; try lia.
  - rewrite Z.mul_0_l, RNb_0 in Htop. lia.
  - simpl. unfold binary_round.
    pose proof (shl_align_spec m e (SpecFloat.fexp prec emax (Z.pos (digits2_pos m) + e)))
      as [Hez Hmz'].
    fold fexp in Hez, Hmz' |- *.
    destruct (shl_align m e (fexp (Z.pos (digits2_pos m) + e))) as [mz ez].
    simpl in Hez, Hmz'.
    pose proof (fexp_ge_emin prec emax (Z.pos (digits2_pos m) + e)) as HEmin.
    fold emin fexp in HEmin.
    set (E := fexp (Z.pos (digits2_pos m) + e)) in *.
    assert (Hval : Z.pos mz * 2 ^ (ez + bias) = Z.pos m * 2 ^ (e + bias)).
    { rewrite Hmz', <- Z.mul_assoc, <- Z.pow_add_r by lia. f_equal. f_equal. lia. }
    assert (Hdig : Zdigits2 (Z.pos mz) + ez = Z.pos (digits2_pos m) + e).
    { change (Z.pos (digits2_pos m)) with (Zdigits2 (Z.pos m)).
      rewrite !Zdigits2_log2 by lia. rewrite Hmz'.
      rewrite Z.log2_mul_pow2 by lia. lia. }
    rewrite <- Hval in *.
    apply round_aux_overflow; try lia.
    rewrite Hdig. fold E. lia.
Qed.

Lemma valid_finite (s : bool) (m : positive) (e : Z) :
  valid_binary prec emax (S754_finite s m e) = true ->
  fexp (Zdigits2 (Z.pos m) + e) = e /\ e <= emax - prec /\ emin <= e /\
  Z.pos m < 2 ^ prec.
Proof.
  unfold valid_binary, bounded, canonical_mantissa. intros H.
  apply andb_prop in H as [H1 H2]. apply Z.eqb_eq in H1. apply Z.leb_le in H2.
  change (Z.pos (digits2_pos m)) with (Zdigits2 (Z.pos m)) in H1.
  fold fexp in H1.
  pose proof (fexp_ge_emin prec emax (Zdigits2 (Z.pos m) + e)) as HEmin.
  pose proof (fexp_ge prec emax (Zdigits2 (Z.pos m) + e)) as HE.
  fold emin fexp in HEmin, HE.
  repeat split; try lia.
  pose proof (Zdigits2_bounds (Z.pos m) ltac:(lia)) as [_ Hhi].
  eapply Z.lt_le_trans; [exact Hhi|]. apply Z.pow_le_mono_r; lia.
Qed.

Lemma RNb_mono X Y : 0 <= X -> X <= Y -> RNb X <= RNb Y.
Proof.
  intros HX HXY. pose proof emin_le as (Hm1 & Hm2 & Hm3).
  destruct (Z.eq_dec X 0) as [->|Hne].
  - rewrite RNb_0. apply RN_nonneg; lia.
  - apply RN_mono; lia.
Qed.

Lemma RNb_multiple (m j : Z) :
  0 < m -> m < 2 ^ prec -> emin + bias <= j -> RNb (m * 2 ^ j) = m * 2 ^ j.
Proof.
  intros Hm Hlt Hj. pose proof emin_le as (Hm1 & Hm2 & Hm3).
  apply RN_exact; [exact Hm3|].
  assert (Hc : cexp prec (emin + bias) (m * 2 ^ j) <= j).
  { unfold cexp. rewrite Z.log2_mul_pow2 by lia.
    assert (Z.log2 m < prec) by (apply Z.log2_lt_pow2; lia). lia. }
  pose proof (cexp_nonneg prec (emin + bias) Hm3 (m * 2 ^ j)) as Hc0.
  set (c := cexp prec (emin + bias) (m * 2 ^ j)) in *.
  replace (2 ^ j) with (2 ^ (j - c) * 2 ^ c)
    by (rewrite <- Z.pow_add_r by lia; f_equal; lia).
  rewrite Z.mul_assoc. apply Z.mod_mul.
  pose proof (Z.pow_pos_nonneg 2 c). lia.
Qed.

Lemma RNb_pow2 (j : Z) : emin + bias <= j -> RNb (2 ^ j) = 2 ^ j.
Proof.
  intros Hj. rewrite <- (Z.mul_1_l (2 ^ j)). apply RNb_multiple; try lia.
  apply Z.pow_gt_1; lia.
Qed.

Lemma fval_finite (m : positive) (e : Z) :
  valid_binary prec emax (S754_finite false m e) = true ->
  0 < Z.pos m * 2 ^ (e + bias) < top /\
  RNb (Z.pos m * 2 ^ (e + bias)) = Z.pos m * 2 ^ (e + bias).
Proof.
  intros Hv. pose proof emin_le as (Hm1 & Hm2 & Hm3).
  destruct (valid_finite false m e Hv) as (Hcan & Hmax & Hmin & Hlt).
  assert (H2 : 0 < 2 ^ (e + bias)) by (apply Z.pow_pos_nonneg; lia).
  split; [split; [lia|]|].
  - apply Z.lt_le_trans with (2 ^ prec * 2 ^ (e + bias)).
    + apply Z.mul_lt_mono_pos_r; lia.
    + rewrite <- Z.pow_add_r by lia. apply Z.pow_le_mono_r; lia.
  - apply RNb_multiple; lia.
Qed.


(** *** The operations on positive finite floats *)

Lemma aligned_sum (mx my : positive) (ex ey : Z) :
  let ez := Z.min ex ey in
  0 <= ez + bias ->
  Z.pos (fst (shl_align mx ex ez)) * 2 ^ (ez + bias) = Z.pos mx * 2 ^ (ex + bias) /\
  Z.pos (fst (shl_align my ey ez)) * 2 ^ (ez + bias) = Z.pos my * 2 ^ (ey + bias).
Proof.
  intros ez Hez.
  destruct (shl_align_spec mx ex ez) as [_ Hx].
  destruct (shl_align_spec my ey ez) as [_ Hy].
  rewrite Hx, Hy.
  replace (Z.min ex ez) with ez by (unfold ez; lia).
  replace (Z.min ey ez) with ez by (unfold ez; lia).
  rewrite <- !Z.mul_assoc, <- !Z.pow_add_r by (unfold ez in *; lia).
  split; f_equal; f_equal; lia.
Qed.

Lemma fadd_spec (mx my : positive) (ex ey : Z) :
  valid_binary prec emax (S754_finite false mx ex) = true ->
  valid_binary prec emax (S754_finite false my ey) = true ->
  let V := RNb (Z.pos mx * 2 ^ (ex + bias) + Z.pos my * 2 ^ (ey + bias)) in
  let r := SFadd prec emax (S754_finite false mx ex) (S754_finite false my ey) in
  (V < top -> fval r = Some V /\ valid_binary prec emax r = true) /\
  (top <= V -> r = S754_infinity false).
Proof.
  intros Hx Hy V r. pose proof emin_le as (Hm1 & Hm2 & Hm3).
  destruct (valid_finite false mx ex Hx) as (_ & _ & Hex & _).
  destruct (valid_finite false my ey Hy) as (_ & _ & Hey & _).
  assert (Hez : 0 <= Z.min ex ey + bias) by lia.
  destruct (aligned_sum mx my ex ey Hez) as [Hax Hay].
  subst r V. unfold SFadd. cbv zeta. unfold cond_Zopp.
  rewrite <- Hax, <- Hay, <- Z.mul_add_distr_r.
  split; intros Htop.
  - apply normalize_val; try assumption; lia.
  - apply normalize_overflow; try assumption; lia.
Qed.

Lemma fsub_spec (mx my : positive) (ex ey : Z) :
  valid_binary prec emax (S754_finite false mx ex) = true ->
  valid_binary prec emax (S754_finite false my ey) = true ->
  Z.pos my * 2 ^ (ey + bias) <= Z.pos mx * 2 ^ (ex + bias) ->
  let V := RNb (Z.pos mx * 2 ^ (ex + bias) - Z.pos my * 2 ^ (ey + bias)) in
  let r := SFsub prec emax (S754_finite false mx ex) (S754_finite false my ey) in
  V < top -> fval r = Some V /\ valid_binary prec emax r = true.
Proof.
  intros Hx Hy Hle V r. pose proof emin_le as (Hm1 & Hm2 & Hm3).
  destruct (valid_finite false mx ex Hx) as (_ & _ & Hex & _).
  destruct (valid_finite false my ey Hy) as (_ & _ & Hey & _).
  assert (Hez : 0 <= Z.min ex ey + bias) by lia.
  destruct (aligned_sum mx my ex ey Hez) as [Hax Hay].
  subst r V. unfold SFsub. cbv zeta. unfold cond_Zopp.
  rewrite <- Hax, <- Hay in Hle |- *. rewrite <- Z.mul_sub_distr_r.
  intros Htop.
  assert (H2 : 0 < 2 ^ (Z.min ex ey + bias)) by (apply Z.pow_pos_nonneg; lia).
  apply normalize_val; try assumption; nia.
Qed.

Lemma mul_exponent (mx my : positive) (ex ey : Z) :
  valid_binary prec emax (S754_finite false mx ex) = true ->
  valid_binary prec emax (S754_finite false my ey) = true ->
  ex + ey <= fexp (Zdigits2 (Z.pos (mx * my)) + (ex + ey)).
Proof.
  intros Hx Hy. pose proof emin_le as (Hm1 & Hm2 & Hm3).
  destruct (valid_finite false mx ex Hx) as (Hcx & _ & Hex & _).
  destruct (valid_finite false my ey Hy) as (Hcy & _ & Hey & _).
  pose proof (Zdigits2_bounds (Z.pos mx) ltac:(lia)) as [Hlx _].
  pose proof (Zdigits2_bounds (Z.pos my) ltac:(lia)) as [Hly _].
  pose proof (Zdigits2_pos (Z.pos mx) ltac:(lia)) as Hdx.
  pose proof (Zdigits2_pos (Z.pos my) ltac:(lia)) as Hdy.
  set (dx := Zdigits2 (Z.pos mx)) in *. set (dy := Zdigits2 (Z.pos my)) in *.
  assert (Hprod : 2 ^ (dx + dy - 2) <= Z.pos (mx * my)).
  { rewrite Pos2Z.inj_mul.
    replace (dx + dy - 2) with ((dx - 1) + (dy - 1)) by lia.
    rewrite Z.pow_add_r by lia.
    apply Z.mul_le_mono_nonneg; try lia; apply Z.pow_nonneg; lia. }
  assert (Hd : dx + dy - 1 <= Zdigits2 (Z.pos (mx * my))).
  { pose proof (Zdigits2_bounds (Z.pos (mx * my)) ltac:(lia)) as [_ Hhi].
    destruct (Z.le_gt_cases (dx + dy - 1) (Zdigits2 (Z.pos (mx * my)))) as [|Hgt];
      [assumption|exfalso].
    assert (2 ^ Zdigits2 (Z.pos (mx * my)) <= 2 ^ (dx + dy - 2)).
    { apply Z.pow_le_mono_r; lia. }
    lia. }
  pose proof (fexp_cases prec emax (dx + ex)) as Hfx.
  pose proof (fexp_cases prec emax (dy + ey)) as Hfy.
  pose proof (fexp_ge prec emax (Zdigits2 (Z.pos (mx * my)) + (ex + ey))) as Hge.
  pose proof (fexp_ge_emin prec emax (Zdigits2 (Z.pos (mx * my)) + (ex + ey))) as Hgm.
  change (SpecFloat.fexp prec emax) with fexp in Hfx, Hfy, Hge, Hgm.
  change (SpecFloat.emin prec emax) with emin in Hfx, Hfy, Hge, Hgm.
  fold dx in Hcx. fold dy in Hcy.
  lia.
Qed.

Lemma fmul_spec (mx my : positive) (ex ey : Z) :
  valid_binary prec emax (S754_finite false mx ex) = true ->
  valid_binary prec emax (S754_finite false my ey) = true ->
  0 <= ex + ey + bias ->
  let V := RNb (Z.pos mx * 2 ^ (ex + bias) * (Z.pos my * 2 ^ (ey + bias)) / 2 ^ bias) in
  let r := SFmul prec emax (S754_finite false mx ex) (S754_finite false my ey) in
  V < top -> fval r = Some V /\ valid_binary prec emax r = true.
Proof.
  intros Hx Hy Hsum V r. pose proof emin_le as (Hm1 & Hm2 & Hm3).
  destruct (valid_finite false mx ex Hx) as (_ & _ & Hex & _).
  destruct (valid_finite false my ey Hy) as (_ & _ & Hey & _).
  assert (Hb : 0 <= bias) by lia.
  assert (Hval : Z.pos mx * 2 ^ (ex + bias) * (Z.pos my * 2 ^ (ey + bias)) / 2 ^ bias
                 = Z.pos (mx * my) * 2 ^ (ex + ey + bias)).
  { replace (Z.pos mx * 2 ^ (ex + bias) * (Z.pos my * 2 ^ (ey + bias)))
      with (Z.pos (mx * my) * 2 ^ (ex + ey + bias) * 2 ^ bias).
    - apply Z.div_mul. pose proof (Z.pow_pos_nonneg 2 bias). lia.
    - assert (Hpow : 2 ^ (ex + bias) * 2 ^ (ey + bias)
                     = 2 ^ (ex + ey + bias) * 2 ^ bias)
        by (rewrite <- !Z.pow_add_r by lia; f_equal; lia).
      rewrite Pos2Z.inj_mul.
      transitivity (Z.pos mx * Z.pos my * (2 ^ (ex + bias) * 2 ^ (ey + bias)));
        [rewrite Hpow|]; ring. }
  subst V r. rewrite Hval. unfold SFmul. simpl xorb.
  intros Htop. apply round_aux_val; try lia.
  apply mul_exponent; assumption.
Qed.


(** *** Comparisons with zero and one *)


Lemma one_pos : Z.pos (Z.to_pos (2 ^ (prec - 1))) = 2 ^ (prec - 1).
Proof. apply Z2Pos.id. apply Z.pow_pos_nonneg; lia. Qed.

Lemma one_valid : valid_binary prec emax one = true.
Proof.
  pose proof emin_le as (Hm1 & Hm2 & Hm3).
  unfold one, valid_binary, bounded, canonical_mantissa.
  change (Z.pos (digits2_pos (Z.to_pos (2 ^ (prec - 1)))))
    with (Zdigits2 (Z.pos (Z.to_pos (2 ^ (prec - 1))))).
  rewrite one_pos.
  rewrite (Zdigits2_unique (2 ^ (prec - 1)) prec);
    [|lia|split; [lia|apply Z.pow_lt_mono_r; lia]].
  assert (Hf : SpecFloat.fexp prec emax (prec + (1 - prec)) = 1 - prec)
    by (unfold SpecFloat.fexp; fold emin; lia).
  rewrite Hf, Z.eqb_refl. simpl. apply Z.leb_le. lia.
Qed.

Lemma one_val : Z.pos (Z.to_pos (2 ^ (prec - 1))) * 2 ^ (1 - prec + bias) = 2 ^ bias.
Proof.
  pose proof emin_le as (Hm1 & Hm2 & Hm3).
  rewrite one_pos, <- Z.pow_add_r by lia. f_equal. lia.
Qed.

Lemma flt_zero_cases (v : spec_float) :
  SFltb (S754_zero false) v = true ->
  (exists m e, v = S754_finite false m e) \/ v = S754_infinity false.
Proof.
  unfold SFltb. destruct v as [s|[]| |[] m e]; simpl; try discriminate; eauto.
Qed.

Lemma flt_one (x : spec_float) (X : Z) :
  valid_binary prec emax x = true -> fval x = Some X ->
  SFltb x one = true -> X < 2 ^ bias.
Proof.
  intros Hv Hx Hlt. pose proof emin_le as (Hm1 & Hm2 & Hm3).
  destruct x as [s|s| |[] m e]; simpl in Hx; try discriminate.
  - injection Hx as <-. apply Z.pow_pos_nonneg; lia.
  - injection Hx as <-.
    destruct (valid_finite false m e Hv) as (_ & _ & Hmin & Hm).
    unfold SFltb, one in Hlt. simpl in Hlt.
    assert (H2 : 0 < 2 ^ (e + bias)) by (apply Z.pow_pos_nonneg; lia).
    destruct (Z.compare_spec e (1 - prec)) as [He|He|He]; try discriminate.
    + change (PosDef.Pos.compare_cont Eq m (Z.to_pos (2 ^ (prec - 1))))
        with (Pos.compare m (Z.to_pos (2 ^ (prec - 1)))) in Hlt.
      destruct (Pos.compare_spec m (Z.to_pos (2 ^ (prec - 1)))) as [Hc|Hc|Hc];
        try discriminate.
      rewrite <- one_val. subst e.
      apply Z.mul_lt_mono_pos_r; [exact H2|].
      apply Pos2Z.pos_lt_pos, Hc.
    + apply Z.lt_le_trans with (2 ^ prec * 2 ^ (e + bias)).
      * apply Z.mul_lt_mono_pos_r; lia.
      * rewrite <- Z.pow_add_r by lia. apply Z.pow_le_mono_r; lia.
Qed.

Lemma fval_positive (x : spec_float) (X : Z) :
  fval x = Some X -> 0 < X ->
  exists m e, x = S754_finite false m e /\ X = Z.pos m * 2 ^ (e + bias).
Proof.
  destruct x as [s|s| |[] m e]; simpl; try discriminate.
  - intros [= <-]. lia.
  - intros [= <-] _. eauto.
Qed.

Lemma fmul_val (mx : positive) (ex : Z) (y : spec_float) (Y : Z) :
  valid_binary prec emax (S754_finite false mx ex) = true ->
  valid_binary prec emax y = true ->
  fval y = Some Y ->
  0 <= ex + emin + bias ->
  let V := RNb (Z.pos mx * 2 ^ (ex + bias) * Y / 2 ^ bias) in
  let r := SFmul prec emax (S754_finite false mx ex) y in
  V < top -> fval r = Some V /\ valid_binary prec emax r = true.
Proof.
  intros Hx Hy HY Hexp V r Htop.
  destruct y as [s|s| |[] my ey]; simpl in HY; try discriminate.
  - injection HY as <-. subst V r. simpl.
    rewrite Z.mul_0_r, Z.div_0_l, RNb_0; [split; reflexivity|].
    pose proof emin_le. pose proof (Z.pow_pos_nonneg 2 bias). lia.
  - injection HY as <-.
    destruct (valid_finite false my ey Hy) as (_ & _ & Hey & _).
    apply fmul_spec; try assumption. lia.
Qed.

(** *** The two cut points of a split *)

Lemma cuts_ordered (v t : spec_float) (n K : Z) :
  valid_binary prec emax v = true ->
  valid_binary prec emax t = true ->
  0 < n < 2 ^ K -> 0 <= K < emax ->
  SFltb (S754_zero false) v = true ->
  SFltb (S754_zero false) t = true ->
  SFltb (SFadd prec emax v t) one = true ->
  exists mn en P1 P2,
    binary_normalize prec emax n 0 false = S754_finite false mn en /\
    fval (SFmul prec emax (S754_finite false mn en)
            (SFsub prec emax (SFsub prec emax one v) t)) = Some P1 /\
    valid_binary prec emax
      (SFmul prec emax (S754_finite false mn en)
            (SFsub prec emax (SFsub prec emax one v) t)) = true /\
    fval (SFmul prec emax (S754_finite false mn en) (SFsub prec emax one t))
      = Some P2 /\
    valid_binary prec emax
      (SFmul prec emax (S754_finite false mn en) (SFsub prec emax one t)) = true /\
    0 <= P1 <= P2.
Proof.
  intros Hv Ht Hn HK Hv0 Ht0 Hsum.
  pose proof emin_le as (Hm1 & Hm2 & Hm3).
  assert (Hb : 0 <= bias) by lia.
  set (ONE := 2 ^ bias).
  assert (HONE : 0 < ONE) by (apply Z.pow_pos_nonneg; lia).
  assert (HRone : RNb ONE = ONE) by (apply RNb_pow2; lia).
  assert (Hone_top : ONE < top).
  { apply Z.pow_lt_mono_r; lia. }
  (* the two fractions are positive and finite *)
  assert (Hvf : exists mv ev, v = S754_finite false mv ev).
  { destruct (flt_zero_cases v Hv0) as [H | ->]; [exact H|].
    destruct t as [s|[]| |[] m e]; simpl in Hsum; discriminate. }
  assert (Htf : exists mt et, t = S754_finite false mt et).
  { destruct (flt_zero_cases t Ht0) as [H | ->]; [exact H|].
    destruct v as [s|[]| |[] m e]; simpl in Hsum; discriminate. }
  destruct Hvf as (mv & ev & ->). destruct Htf as (mt & et & ->).
  destruct (fval_finite mv ev Hv) as [[HV0 HVtop] HRV].
  destruct (fval_finite mt et Ht) as [[HT0 HTtop] HRT].
  set (V := Z.pos mv * 2 ^ (ev + bias)) in *.
  set (T := Z.pos mt * 2 ^ (et + bias)) in *.
  (* their sum, before rounding, is below one *)
  assert (HVT : V + T < ONE).
  { destruct (Z.lt_ge_cases (V + T) ONE) as [|Hge]; [assumption|exfalso].
    pose proof (RNb_mono ONE (V + T) ltac:(lia) Hge) as Hmono.
    destruct (fadd_spec mv mt ev et Hv Ht) as [Hfin Hinf].
    fold V T in Hfin, Hinf.
    destruct (Z.lt_ge_cases (RNb (V + T)) top) as [Hlt|Hov].
    - destruct (Hfin Hlt) as [Hval Hvalid].
      pose proof (flt_one _ _ Hvalid Hval Hsum). fold ONE in H. lia.
    - rewrite (Hinf Hov) in Hsum. discriminate. }
  (* a = 1. - v *)
  assert (Ha : exists ma ea,
            SFsub prec emax one (S754_finite false mv ev) = S754_finite false ma ea /\
            valid_binary prec emax (S754_finite false ma ea) = true /\
            T <= Z.pos ma * 2 ^ (ea + bias) <= ONE).
  { destruct (fsub_spec _ mv _ ev one_valid Hv) as [Hval Hvalid].
    - rewrite one_val. fold V ONE. lia.
    - rewrite one_val. fold V ONE.
      pose proof (RNb_mono (ONE - V) ONE ltac:(lia) ltac:(lia)). lia.
    - fold one in Hval, Hvalid. rewrite one_val in Hval. fold V ONE in Hval.
      pose proof (RNb_mono (ONE - V) ONE ltac:(lia) ltac:(lia)) as Hup.
      pose proof (RNb_mono T (ONE - V) ltac:(lia) ltac:(lia)) as Hlo.
      rewrite HRT in Hlo. rewrite HRone in Hup.
      destruct (fval_positive _ _ Hval ltac:(lia)) as (ma & ea & Hra & HA).
      exists ma, ea. rewrite Hra in Hvalid. rewrite <- HA.
      split; [exact Hra|]. split; [exact Hvalid|]. lia. }
  destruct Ha as (ma & ea & Hea & Hva & HA).
  set (A := Z.pos ma * 2 ^ (ea + bias)) in *.
  (* c1 = a - t and c2 = 1. - t *)
  destruct (fsub_spec ma mt ea et Hva Ht) as [Hc1 Hvc1].
  { fold A T. lia. }
  { fold A T. pose proof (RNb_mono (A - T) ONE ltac:(lia) ltac:(lia)). lia. }
  fold A T in Hc1. rewrite <- Hea in Hc1, Hvc1.
  destruct (fsub_spec _ mt _ et one_valid Ht) as [Hc2 Hvc2].
  { rewrite one_val. fold T ONE. lia. }
  { rewrite one_val. fold T ONE.
    pose proof (RNb_mono (ONE - T) ONE ltac:(lia) ltac:(lia)). lia. }
  fold one in Hc2, Hvc2. rewrite one_val in Hc2. fold T ONE in Hc2.
  set (C1 := RNb (A - T)) in *. set (C2 := RNb (ONE - T)) in *.
  assert (HC : 0 <= C1 <= C2 /\ C2 <= ONE).
  { unfold C1, C2. split; [split|].
    - apply RN_nonneg; lia.
    - apply RNb_mono; lia.
    - rewrite <- HRone. apply RNb_mono; lia. }
  (* float(n) *)
  assert (HNtop : 2 ^ (K + bias) < top) by (apply Z.pow_lt_mono_r; lia).
  assert (HRK : RNb (2 ^ (K + bias)) = 2 ^ (K + bias)) by (apply RNb_pow2; lia).
  assert (HnK : n * 2 ^ (0 + bias) <= 2 ^ (K + bias)).
  { replace (0 + bias) with bias by lia.
    rewrite (Z.pow_add_r 2 K bias) by lia. fold ONE. nia. }
  assert (Hn1 : ONE <= n * 2 ^ (0 + bias)).
  { replace (0 + bias) with bias by lia. fold ONE. nia. }
  assert (Hn0 : 0 <= n) by lia.
  assert (H0b : 0 <= 0 + bias) by lia.
  assert (Hnb : 0 <= n * 2 ^ (0 + bias)) by lia.
  pose proof (RNb_mono _ _ Hnb HnK) as HNup. rewrite HRK in HNup.
  pose proof (RNb_mono _ _ (Z.lt_le_incl _ _ HONE) Hn1) as HNlo.
  rewrite HRone in HNlo.
  destruct (normalize_val n 0 Hn0 H0b) as [HNval HNvalid]; [lia|].
  destruct (fval_positive _ _ HNval ltac:(lia)) as (mn & en & Hnf & HNF).
  rewrite Hnf in HNvalid.
  set (NF := RNb (n * 2 ^ (0 + bias))) in *.
  destruct (fval_finite mn en HNvalid) as [_ HRN]. rewrite <- HNF in HRN.
  destruct (valid_finite false mn en HNvalid) as (_ & _ & Hen & Hmn).
  assert (Hen1 : 1 - prec <= en).
  { destruct (Z.le_gt_cases (1 - prec) en) as [|Hlt]; [assumption|exfalso].
    assert (Z.pos mn * 2 ^ (en + bias) < 2 ^ prec * 2 ^ (en + bias)).
    { apply Z.mul_lt_mono_pos_r; [apply Z.pow_pos_nonneg; lia|lia]. }
    rewrite <- Z.pow_add_r in H by lia.
    assert (2 ^ (prec + (en + bias)) <= ONE) by (apply Z.pow_le_mono_r; lia).
    lia. }
  assert (Hdiv : forall C, 0 <= C <= ONE -> 0 <= NF * C / ONE <= NF).
  { intros C HCb. split.
    - apply Z.div_pos; nia.
    - apply Z.div_le_upper_bound; nia. }
  exists mn, en, (RNb (NF * C1 / ONE)), (RNb (NF * C2 / ONE)).
  split; [exact Hnf|].
  destruct (fmul_val mn en _ C1 HNvalid Hvc1 Hc1) as [Hp1 Hvp1].
  { lia. }
  { rewrite <- HNF. fold ONE.
    pose proof (RNb_mono (NF * C1 / ONE) NF ltac:(apply Hdiv; lia)
                  ltac:(apply Hdiv; lia)). lia. }
  destruct (fmul_val mn en _ C2 HNvalid Hvc2 Hc2) as [Hp2 Hvp2].
  { lia. }
  { rewrite <- HNF. fold ONE.
    pose proof (RNb_mono (NF * C2 / ONE) NF ltac:(apply Hdiv; lia)
                  ltac:(apply Hdiv; lia)). lia. }
  rewrite <- HNF in Hp1, Hp2. fold ONE in Hp1, Hp2.
  repeat split; try assumption.
  - apply RN_nonneg; [lia|]. apply Hdiv. lia.
  - apply RNb_mono; [apply Hdiv; lia|].
    apply Z.div_le_mono; [lia|]. nia.
Qed.

End Values.

End Shifts.

(** ** The cut points of [dataset_split] *)

Lemma int_of_float_val (bias : Z) (f : float) (V : Z) :
  0 <= bias -> fval bias f = Some V ->
  (forall s m e, f = S754_finite s m e -> 0 <= e + bias) ->
  int_of_float f = Ok (V / 2 ^ bias).
Proof.
  intros Hb Hf He.
  assert (Hpos : 0 < 2 ^ bias) by (apply Z.pow_pos_nonneg; lia).
  destruct f as [s|s| |[] m e]; simpl in Hf; try discriminate; injection Hf as <-.
  - simpl. rewrite Z.div_0_l by lia. reflexivity.
  - specialize (He false m e eq_refl). unfold int_of_float, cond_Zopp. f_equal.
    destruct (Z.le_gt_cases 0 e) as [Hle|Hgt].
    + rewrite Z.shiftl_mul_pow2 by lia.
      rewrite Z.pow_add_r, Z.mul_assoc by lia. symmetry. apply Z.div_mul. lia.
    + rewrite Z.shiftl_div_pow2 by lia.
      replace (2 ^ bias) with (2 ^ (- e) * 2 ^ (e + bias))
        by (rewrite <- Z.pow_add_r by lia; f_equal; lia).
      symmetry. apply Z.div_mul_cancel_r.
      * pose proof (Z.pow_pos_nonneg 2 (- e)). lia.
      * pose proof (Z.pow_pos_nonneg 2 (e + bias)). lia.
Qed.

Lemma split_indices_ordered (n : Z) (v t : float) :
  is_float v -> is_float t -> 0 < n < 2 ^ 63 ->
  flt f0 v && flt f0 t = true -> flt (fadd v t) f1 = true ->
  exists i1 i2,
    result_bind (int_mul_float n (fsub (fsub f1 v) t)) int_of_float = Ok i1 /\
    result_bind (int_mul_float n (fsub f1 t)) int_of_float = Ok i2 /\
    0 <= i1 <= i2.
Proof.
  intros Hv Ht Hn Hpos Hsum. apply andb_prop in Hpos as [Hv0 Ht0].
  assert (H1 : (0 < 53)) by lia.
  assert (H2 : (53 < 1024)) by lia.
  assert (H3 : 53 - SpecFloat.emin 53 1024 <= 1200)
    by (unfold SpecFloat.emin; lia).
  destruct (cuts_ordered 53 1024 1200 H1 H2 H3 v t n 63 Hv Ht Hn ltac:(lia)
              Hv0 Ht0 Hsum)
    as (mn & en & P1 & P2 & Hnf & Hp1 & Hv1 & Hp2 & Hv2 & HP).
  assert (Hexp : forall f, valid_binary 53 1024 f = true ->
            forall s m e, f = S754_finite s m e -> 0 <= e + 1200).
  { intros f Hf s m e ->.
    destruct (valid_finite 53 1024 H1 s m e Hf) as (_ & _ & Hmin & _).
    unfold SpecFloat.emin in Hmin. lia. }
  exists (P1 / 2 ^ 1200), (P2 / 2 ^ 1200).
  unfold int_mul_float, float_of_int, of_Z.
  change (binary_normalize prec emax n 0 false)
    with (binary_normalize 53 1024 n 0 false).
  rewrite Hnf. unfold result_bind.
  split; [|split].
  - apply (int_of_float_val 1200); [lia|exact Hp1|exact (Hexp _ Hv1)].
  - apply (int_of_float_val 1200); [lia|exact Hp2|exact (Hexp _ Hv2)].
  - assert (Hp : 0 < 2 ^ 1200) by (apply Z.pow_pos_nonneg; lia).
    split.
    + apply Z.div_pos; [apply HP|exact Hp].
    + apply Z.div_le_mono; [exact Hp|apply HP].
Qed.

Section Arrays.

Context {G : Generator}.

(** ** Shuffling permutes *)

Lemma insert_cons_perm {A} (l : list A) (j : nat) (x y : A) :
  l !! j = Some y -> y :: <[j := x]> l ≡ₚ x :: l.
Proof.
  revert j. induction l as [|z l IH]; intros [|j] Hj; simpl in *; try discriminate.
  - injection Hj as ->. apply perm_swap.
  - rewrite (perm_swap z y), (IH j Hj). apply perm_swap.
Qed.

Lemma swap_perm {A} (i j : nat) (l : list A) : swap i j l ≡ₚ l.
Proof.
  unfold swap.
  destruct (l !! i) as [xi|] eqn:Hi; [|reflexivity].
  destruct (l !! j) as [xj|] eqn:Hj; [|reflexivity].
  revert i j Hi Hj. induction l as [|z l IH]; intros [|i] [|j] Hi Hj;
    simpl in *; try discriminate.
  - injection Hi as ->. reflexivity.
  - injection Hi as ->. apply insert_cons_perm. exact Hj.
  - injection Hj as ->. apply insert_cons_perm. exact Hi.
  - f_equiv. apply IH; assumption.
Qed.

Lemma shuffle_from_perm {A} (i : nat) (l : list A) (s : RandomState) :
  fst (shuffle_from i l s) ≡ₚ l.
Proof.
  revert l s. induction i as [|i IH]; intros l s; simpl; [reflexivity|].
  destruct (rk_interval (S i) s) as [j s']. rewrite IH. apply swap_perm.
Qed.

Lemma rk_shuffle_perm {A} (l : list A) (s : RandomState) :
  fst (rk_shuffle l s) ≡ₚ l.
Proof. apply shuffle_from_perm. Qed.

Lemma rk_shuffle_length {A} (l : list A) (s : RandomState) :
  length (fst (rk_shuffle l s)) = length l.
Proof. apply Permutation_length, rk_shuffle_perm. Qed.

Lemma write_rows_eq a rs w b :
  arrays w !! base a = Some b ->
  write_rows a rs w = (Ok tt, set_arrays (<[base a := splice a rs b]> (arrays w)) w).
Proof. intros Hb. unfold write_rows. rewrite Hb. reflexivity. Qed.

Lemma rows_of_splice (a v : ndarray) (rs : list (list Z)) (b : buffer) (k : nat) :
  (start a + len a <= length (data b))%nat ->
  length rs = len a ->
  start v = (start a + k)%nat ->
  (k + len v <= len a)%nat ->
  rows_of (splice a rs b) v = take (len v) (drop k rs).
Proof.
  intros Hin Hrs Hst Hk. unfold rows_of, splice. simpl. rewrite Hst.
  rewrite <- drop_drop.
  rewrite drop_app_length'; [|rewrite length_take; lia].
  rewrite drop_app_le by lia.
  rewrite take_app_le; [reflexivity|rewrite length_drop; lia].
Qed.

Lemma rng_shuffle_eq rng_a x w b s :
  arrays w !! base x = Some b ->
  rng_state w rng_a = Some s ->
  exists g w1 w2,
    rng_of_arg rng_a w = (Ok g, w1) /\
    rng_shuffle g x w1 = (Ok tt, w2) /\
    arrays w2 = <[base x := splice x (fst (rk_shuffle (rows_of b x) s)) b]> (arrays w) /\
    np_random w2 = np_random w /\ x_valid_ll w2 = x_valid_ll w /\
    x_valid_ll_ratio w2 = x_valid_ll_ratio w /\
    sent_challenge w2 = sent_challenge w.
Proof.
  intros Hb Hs. unfold rng_of_arg. destruct rng_a as [|seed|r]; simpl in Hs.
  - injection Hs as <-. unfold RandomState_fresh.
    destruct (urandom w) as [|u us] eqn:Hu; simpl;
      eexists _, _, _; (split; [reflexivity|]);
      unfold rng_shuffle, bind, read_buffer; simpl; rewrite Hb;
      rewrite (write_rows_eq _ _ _ b) by (simpl; exact Hb); simpl; repeat split.
  - rewrite Hs. eexists _, _, _. split; [reflexivity|].
    unfold rng_shuffle, bind, read_buffer. rewrite Hb.
    rewrite (write_rows_eq _ _ _ b Hb). simpl. repeat split.
  - destruct (rk_shuffle (rows_of b x) s) as [rs s'] eqn:Hsh.
    eexists _, _, _. split; [reflexivity|].
    unfold rng_shuffle, bind, read_buffer. rewrite Hs, Hb, Hsh.
    rewrite (write_rows_eq _ _ _ b Hb). simpl. repeat split.
Qed.

Lemma dataset_split_run w x v t rng_a b s i1 i2 :
  arrays w !! base x = Some b ->
  flt f0 v && flt f0 t = true ->
  flt (fadd v t) f1 = true ->
  rng_state w rng_a = Some s ->
  result_bind (int_mul_float (shape0 x) (fsub (fsub f1 v) t)) int_of_float = Ok i1 ->
  result_bind (int_mul_float (shape0 x) (fsub f1 t)) int_of_float = Ok i2 ->
  exists w',
    dataset_split x v t rng_a w =
      (Ok (getslice x None (Some i1), getslice x (Some i1) (Some i2),
           getslice x (Some i2) None), w') /\
    arrays w' = <[base x := splice x (fst (rk_shuffle (rows_of b x) s)) b]> (arrays w) /\
    np_random w' = np_random w /\ x_valid_ll w' = x_valid_ll w /\
    x_valid_ll_ratio w' = x_valid_ll_ratio w /\
    sent_challenge w' = sent_challenge w.
Proof.
  intros Hb Hpos Hsum Hs H1 H2.
  destruct (rng_shuffle_eq rng_a x w b s Hb Hs) as (g & w1 & w2 & Hg & Hsh & Hw2).
  exists w2. split; [|exact Hw2].
  unfold dataset_split, bind, py_assert. rewrite Hpos, Hsum. simpl.
  rewrite Hg, Hsh. unfold lift. rewrite H1, H2. reflexivity.
Qed.


Lemma rows_splice_self w a rs b :
  arrays w !! base a = Some (splice a rs b) ->
  (start a + len a <= length (data b))%nat ->
  length rs = len a ->
  rows w a = rs.
Proof.
  intros Hw Hin Hrs. unfold rows. rewrite Hw.
  rewrite (rows_of_splice a a rs b 0) by lia.
  rewrite drop_0, <- Hrs. apply firstn_all.
Qed.

(** C3: for an array of [N > 0] rows (fewer than [2^63]) and fractions
    that satisfy the two assertions, [dataset_split] returns three arrays
    whose lengths add up to [N] and whose rows, read after the call and put
    end to end, are a permutation of the rows the input had before the
    call: the same multiset of rows.  The generator must be usable: a seed
    that [RandomState] accepts, or a generator object. *)
Theorem dataset_split_partition (w : world) (x : ndarray) (v t : float)
    (rng : rng_arg) :
  is_array w x -> (0 < len x)%nat -> Z.of_nat (len x) < 2 ^ 63 ->
  is_float v -> is_float t ->
  flt f0 v && flt f0 t = true -> flt (fadd v t) f1 = true ->
  is_Some (rng_state w rng) ->
  exists train valid test w',
    dataset_split x v t rng w = (Ok (train, valid, test), w') /\
    (len train + len valid + len test = len x)%nat /\
    length (rows w' train) = len train /\
    length (rows w' valid) = len valid /\
    length (rows w' test) = len test /\
    rows w' train ++ rows w' valid ++ rows w' test ≡ₚ rows w x.
Proof.
  intros (b & Hb & Hin & _) Hpos Hn Hv Ht Hp Hsum [s Hs].
  destruct (split_indices_ordered (shape0 x) v t Hv Ht) as (i1 & i2 & H1 & H2 & Hi);
    [unfold shape0; lia|exact Hp|exact Hsum|].
  destruct (dataset_split_run w x v t rng b s i1 i2 Hb Hp Hsum Hs H1 H2)
    as (w' & Hrun & Harr & _).
  eexists _, _, _, w'. split; [exact Hrun|].
  set (rs := fst (rk_shuffle (rows_of b x) s)) in *.
  assert (Hrs : length rs = len x).
  { unfold rs. rewrite rk_shuffle_length. unfold rows_of.
    rewrite length_take, length_drop. lia. }
  assert (Hperm : rs ≡ₚ rows w x).
  { unfold rs, rows. rewrite Hb. apply rk_shuffle_perm. }
  assert (Hw' : forall a, base a = base x ->
            arrays w' !! base a = Some (splice x rs b)).
  { intros a ->. rewrite Harr. apply lookup_insert_eq. }
  set (n := Z.of_nat (len x)).
  set (a1 := Z.to_nat (Z.min i1 n)). set (a2 := Z.to_nat (Z.min i2 n)).
  assert (Ha : (a1 <= a2 <= len x)%nat) by (unfold a1, a2, n; lia).
  assert (Htr : rows w' (getslice x None (Some i1)) = take a1 rs).
  { unfold rows. rewrite Hw' by reflexivity.
    rewrite (rows_of_splice x _ rs b 0); simpl; unfold slice_index;
      fold n; destruct (Z.ltb_spec i1 0); try lia.
    rewrite drop_0. f_equal. unfold a1. lia. }
  assert (Hva : rows w' (getslice x (Some i1) (Some i2)) = take (a2 - a1) (drop a1 rs)).
  { unfold rows. rewrite Hw' by reflexivity.
    rewrite (rows_of_splice x _ rs b a1); simpl; unfold slice_index;
      fold n; destruct (Z.ltb_spec i1 0); destruct (Z.ltb_spec i2 0);
      try (unfold a1, a2 in *; lia).
    f_equal. unfold a1, a2. lia. }
  assert (Hte : rows w' (getslice x (Some i2) None) = drop a2 rs).
  { unfold rows. rewrite Hw' by reflexivity.
    rewrite (rows_of_splice x _ rs b a2); simpl; unfold slice_index;
      fold n; destruct (Z.ltb_spec i2 0);
      try (unfold a1, a2 in *; lia).
    apply take_ge. rewrite length_drop. unfold a2 in *. lia. }
  rewrite Htr, Hva, Hte.
  rewrite !length_take, !length_drop.
  simpl. unfold slice_index. fold n.
  destruct (Z.ltb_spec i1 0); destruct (Z.ltb_spec i2 0); try lia.
  fold a1 a2.
  split; [unfold a1, a2, n in *; lia|].
  split; [unfold a1, a2, n in *; lia|].
  split; [unfold a1, a2, n in *; lia|].
  split; [unfold a1, a2, n in *; lia|].
  rewrite <- Hperm.
  rewrite <- (take_drop a1 rs) at 4.
  f_equiv.
  rewrite <- (take_drop (a2 - a1) (drop a1 rs)) at 2.
  rewrite drop_drop. replace (a1 + (a2 - a1))%nat with a2 by lia. reflexivity.
Qed.

End Arrays.

Section Split.

Context {G : Generator}.

(** C2: on an array of 1000 rows, [dataset_split x 0.05 0.05 12345] cuts
    at [i1 = int(1000 * (1. - 0.05 - 0.05)) = 899] and
    [i2 = int(1000 * (1. - 0.05)) = 950], since in binary64
    [1. - 0.05 - 0.05] is [0.8999999999999999]: the train, validation and
    test sets have 899, 51 and 50 rows, not 900, 50 and 50. *)
Theorem dataset_split_1000_rows (w : world) (x : ndarray) (s : RandomState) :
  is_Some (arrays w !! base x) ->
  len x = 1000%nat ->
  rk_seed 12345 = Some s ->
  exists w',
    dataset_split x f0_05 f0_05 (RngInt 12345) w =
      (Ok (getslice x None (Some 899), getslice x (Some 899) (Some 950),
           getslice x (Some 950) None), w') /\
    len (getslice x None (Some 899)) = 899%nat /\
    len (getslice x (Some 899) (Some 950)) = 51%nat /\
    len (getslice x (Some 950) None) = 50%nat.
Proof.
  intros [b Hb] Hlen Hs.
  destruct (dataset_split_run w x f0_05 f0_05 (RngInt 12345) b s 899 950)
    as (w' & Hrun & _); try assumption; try reflexivity.
  - unfold shape0. rewrite Hlen. vm_compute. reflexivity.
  - unfold shape0. rewrite Hlen. vm_compute. reflexivity.
  - exists w'. split; [exact Hrun|].
    unfold getslice. simpl. rewrite Hlen. vm_compute. auto.
Qed.

End Split.

Section Perturb.

Context {G : Generator}.

Lemma same_frame_refl w : same_frame w w.
Proof. repeat split. Qed.

Lemma same_frame_trans w1 w2 w3 :
  same_frame w1 w2 -> same_frame w2 w3 -> same_frame w1 w3.
Proof. unfold same_frame. intuition congruence. Qed.

Lemma length_column n term rs :
  rows_rect n rs -> (term < n)%nat -> length (column term rs) = length rs.
Proof.
  intros Hr Ht. unfold column. induction Hr as [|r rs Hlen _ IH]; [reflexivity|].
  simpl. destruct (r !! term) eqn:E.
  - simpl. f_equal. exact IH.
  - apply lookup_ge_None in E. lia.
Qed.

Lemma length_set_column term vals rs :
  length vals = length rs -> length (set_column term vals rs) = length rs.
Proof. intros H. unfold set_column. rewrite length_zip_with. lia. Qed.

Lemma rows_rect_set_column n term vals rs :
  rows_rect n rs -> rows_rect n (set_column term vals rs).
Proof.
  unfold rows_rect, set_column. intros Hr. revert vals.
  induction Hr as [|r rs Hlen _ IH]; intros [|v vals]; simpl; constructor.
  - rewrite length_insert. exact Hlen.
  - apply IH.
Qed.

Lemma length_rk_samples a p size s : length (fst (rk_samples a p size s)) = size.
Proof.
  revert s. induction size as [|size IH]; intros s; simpl; [reflexivity|].
  destruct (rk_sample a p s) as [v s']. specialize (IH s').
  destruct (rk_samples a p size s') as [vs s'']. simpl in *. lia.
Qed.

Lemma perturb_step_shape vocab_size dist shuffle n N term rs s rs' s' :
  rows_rect n rs -> length rs = N ->
  perturb_step vocab_size dist shuffle n N term rs s = (Ok rs', s') ->
  rows_rect n rs' /\ length rs' = N.
Proof.
  intros Hr HN. unfold perturb_step.
  destruct shuffle.
  - destruct (Nat.leb_spec n term); [discriminate|].
    destruct (rk_shuffle (column term rs) s) as [c s1] eqn:Hc.
    intros [= <- <-]. split; [apply rows_rect_set_column, Hr|].
    rewrite length_set_column; [exact HN|].
    change c with (fst (c, s1)). rewrite <- Hc, rk_shuffle_length.
    apply (length_column n); assumption.
  - destruct (vocab_size <=? 0); [discriminate|].
    destruct (negb (p_ok vocab_size dist)); [discriminate|].
    destruct (rk_samples vocab_size dist N s) as [vs s1] eqn:Hvs.
    destruct (Nat.leb_spec n term); [discriminate|].
    intros [= <- <-]. split; [apply rows_rect_set_column, Hr|].
    rewrite length_set_column; [exact HN|].
    rewrite length_map. change vs with (fst (vs, s1)).
    rewrite <- Hvs, length_rk_samples. symmetry. exact HN.
Qed.

Lemma perturb_terms_shape vocab_size dist shuffle n N terms rs s :
  rows_rect n rs -> length rs = N ->
  rows_rect n (snd (fst (perturb_terms vocab_size dist shuffle n N terms rs s))) /\
  length (snd (fst (perturb_terms vocab_size dist shuffle n N terms rs s))) = N.
Proof.
  revert rs s. induction terms as [|term terms IH]; intros rs s Hr HN; simpl.
  - split; assumption.
  - destruct (perturb_step vocab_size dist shuffle n N term rs s) as [[rs'|e] s'] eqn:E.
    + destruct (perturb_step_shape _ _ _ _ _ _ _ _ _ _ Hr HN E). apply IH; assumption.
    + split; assumption.
Qed.


Lemma rows_of_whole n rs l :
  rows_of {| cols := n; data := rs |} (whole l (length rs)) = rs.
Proof. unfold rows_of, whole. simpl. rewrite drop_0. apply firstn_all. Qed.

Lemma splice_whole n rs rs' l :
  splice (whole l (length rs)) rs' {| cols := n; data := rs |}
  = {| cols := n; data := rs' |}.
Proof.
  unfold splice, whole. simpl. rewrite drop_all, app_nil_r. reflexivity.
Qed.

Lemma loop_body_run vocab_size dist shuffle n l term w rs :
  arrays w !! l = Some {| cols := n; data := rs |} ->
  rows_rect n rs ->
  let st := perturb_step vocab_size dist shuffle n (length rs) term rs (np_random w) in
  exists w',
    loop_body (whole l (length rs)) vocab_size dist shuffle (length rs) term w
      = (unit_of (fst st), w') /\
    arrays w' = <[l := {| cols := n; data := rows_or (fst st) rs |}]> (arrays w) /\
    np_random w' = snd st /\
    same_frame w w'.
Proof.
  intros Hl Hr st. subst st. unfold loop_body, perturb_step.
  assert (Hid : arrays w = <[l := {| cols := n; data := rs |}]> (arrays w))
    by (symmetry; apply insert_id, Hl).
  destruct shuffle.
  - unfold np_random_shuffle_column, bind, read_buffer. simpl. rewrite Hl. simpl.
    destruct (Nat.leb_spec n term).
    + exists w. simpl. repeat split; try exact Hid.
    + rewrite rows_of_whole.
      destruct (rk_shuffle (column term rs) (np_random w)) as [c s'].
      rewrite (write_rows_eq (whole l (length rs)) _ (set_np_random s' w) _ Hl).
      rewrite splice_whole.
      eexists. split; [reflexivity|]. simpl. repeat split.
  - unfold np_random_choice, bind.
    destruct (vocab_size <=? 0).
    { exists w. simpl. repeat split; try exact Hid. }
    fold (p_ok vocab_size dist).
    destruct (negb (p_ok vocab_size dist)).
    { exists w. simpl. repeat split; try exact Hid. }
    pose proof (length_rk_samples vocab_size dist (length rs) (np_random w)) as Hlen.
    destruct (rk_samples vocab_size dist (length rs) (np_random w)) as [vs s'].
    simpl in Hlen.
    unfold setitem_column, bind, read_buffer. simpl. rewrite Hl. simpl.
    destruct (Nat.leb_spec n term).
    + eexists. split; [reflexivity|]. simpl. repeat split; try exact Hid.
    + rewrite rows_of_whole, length_map, Hlen, Nat.eqb_refl. simpl.
      rewrite (write_rows_eq (whole l (length rs)) _ (set_np_random s' w) _ Hl).
      rewrite splice_whole.
      eexists. split; [reflexivity|]. simpl. repeat split.
Qed.

Lemma for_each_run vocab_size dist shuffle n l terms w rs :
  arrays w !! l = Some {| cols := n; data := rs |} ->
  rows_rect n rs ->
  let st := perturb_terms vocab_size dist shuffle n (length rs) terms rs (np_random w) in
  exists w',
    for_each terms (loop_body (whole l (length rs)) vocab_size dist shuffle (length rs)) w
      = (fst (fst st), w') /\
    arrays w' = <[l := {| cols := n; data := snd (fst st) |}]> (arrays w) /\
    np_random w' = snd st /\
    same_frame w w'.
Proof.
  revert w rs. induction terms as [|term terms IH]; intros w rs Hl Hr; simpl.
  - exists w. repeat split. symmetry. apply insert_id, Hl.
  - destruct (loop_body_run vocab_size dist shuffle n l term w rs Hl Hr)
      as (w1 & Hrun & Harr & Hnp & Hfr).
    unfold bind. rewrite Hrun.
    destruct (perturb_step vocab_size dist shuffle n (length rs) term rs (np_random w))
      as [[rs1|e] s1] eqn:E; simpl in *.
    + destruct (perturb_step_shape _ _ _ _ _ _ _ _ _ _ Hr eq_refl E) as [Hr1 HN1].
      assert (Hl1 : arrays w1 !! l = Some {| cols := n; data := rs1 |})
        by (rewrite Harr; apply lookup_insert_eq).
      destruct (IH w1 rs1 Hl1 Hr1) as (w2 & Hrun2 & Harr2 & Hnp2 & Hfr2).
      rewrite HN1, Hnp in *.
      exists w2. split; [exact Hrun2|]. split.
      { rewrite Harr2, Harr. apply insert_insert_eq. }
      split; [exact Hnp2|]. eapply same_frame_trans; eassumption.
    + exists w1. repeat split; try assumption; apply Hfr.
Qed.


Lemma rows_of_length b a :
  (start a + len a <= length (data b))%nat -> length (rows_of b a) = len a.
Proof. intros H. unfold rows_of. rewrite length_take, length_drop. lia. Qed.

Lemma rows_of_rect b a : rect b -> rows_rect (cols b) (rows_of b a).
Proof. intros H. unfold rows_of. apply Forall_take, Forall_drop, H. Qed.

Lemma fresh_array_loc (w : world) : arrays w !! fresh (dom (arrays w)) = None.
Proof. apply not_elem_of_dom, is_fresh. Qed.

Lemma random_ngrams_run w ngrams vocab_size (all_ : bool) dist shuffle b :
  arrays w !! base ngrams = Some b ->
  (start ngrams + len ngrams <= length (data b))%nat ->
  rect b ->
  let l := fresh (dom (arrays w)) in
  let st := perturb_terms vocab_size dist shuffle (cols b) (len ngrams)
              (xrange (if all_ then cols b else 1%nat)) (rows_of b ngrams)
              (np_random w) in
  exists w',
    random_ngrams ngrams vocab_size all_ dist shuffle w
      = (match fst (fst st) with
         | Ok _ => Ok (whole l (len ngrams))
         | Raise e => Raise e
         end, w') /\
    arrays w' = <[l := {| cols := cols b; data := snd (fst st) |}]> (arrays w) /\
    np_random w' = snd st /\
    same_frame w w'.
Proof.
  intros Hb Hin Hrect l st.
  pose proof (rows_of_length b ngrams Hin) as HN.
  set (rs0 := rows_of b ngrams) in *.
  set (w0 := set_arrays (<[l := {| cols := cols b; data := rs0 |}]> (arrays w)) w).
  assert (Hl0 : arrays w0 !! l = Some {| cols := cols b; data := rs0 |})
    by apply lookup_insert_eq.
  assert (Hterms : (if all_ return M nat then shape1 ngrams else ret 1%nat) w0
                   = (Ok (if all_ then cols b else 1%nat), w0)).
  { destruct all_; [|reflexivity].
    unfold shape1, bind, read_buffer. simpl.
    rewrite lookup_insert_ne by (intros E; unfold l in E; rewrite <- E, fresh_array_loc in Hb; discriminate).
    rewrite Hb. reflexivity. }
  destruct (for_each_run vocab_size dist shuffle (cols b) l
              (xrange (if all_ then cols b else 1%nat)) w0 rs0 Hl0
              (rows_of_rect b ngrams Hrect)) as (w' & Hrun & Harr & Hnp & Hfr).
  rewrite HN in Hrun, Harr, Hnp.
  change (np_random w0) with (np_random w) in Hrun, Harr, Hnp.
  fold st in Hrun, Harr, Hnp.
  exists w'. split; [|split; [|split]].
  - unfold random_ngrams, bind at 1. unfold np_array, bind at 1, read_buffer.
    rewrite Hb. fold l rs0. fold w0. unfold bind at 1. rewrite Hterms.
    unfold bind at 1. rewrite HN.
    unfold loop_body, whole in Hrun. rewrite Hrun.
    destruct (fst (fst st)) as [[]|e]; reflexivity.
  - rewrite Harr. simpl. apply insert_insert_eq.
  - exact Hnp.
  - destruct Hfr as (? & ? & ? & ? & ?). repeat split; assumption.
Qed.

End Perturb.

Section PerturbProps.

Context {G : Generator}.

Lemma set_column_entry_ne term vals rs i j :
  length vals = length rs -> j <> term ->
  entry (set_column term vals rs) i j = entry rs i j.
Proof.
  intros Hlen Hj. unfold entry, set_column. rewrite lookup_zip_with.
  destruct (rs !! i) as [r|] eqn:Hr; simpl; [|reflexivity].
  destruct (vals !! i) as [v|] eqn:Hv; simpl.
  - apply list_lookup_insert_ne. congruence.
  - apply lookup_ge_None in Hv. apply lookup_lt_Some in Hr. lia.
Qed.

Lemma perturb_step_untouched vocab_size dist shuffle n N term rs s rs' s' :
  rows_rect n rs -> length rs = N ->
  perturb_step vocab_size dist shuffle n N term rs s = (Ok rs', s') ->
  forall i j, j <> term -> entry rs' i j = entry rs i j.
Proof.
  intros Hr HN. unfold perturb_step. destruct shuffle.
  - destruct (Nat.leb_spec n term); [discriminate|].
    destruct (rk_shuffle (column term rs) s) as [c s1] eqn:Hc.
    intros [= <- <-] i j Hj. apply set_column_entry_ne; [|exact Hj].
    change c with (fst (c, s1)). rewrite <- Hc, rk_shuffle_length.
    apply (length_column n); assumption.
  - destruct (vocab_size <=? 0); [discriminate|].
    destruct (negb (p_ok vocab_size dist)); [discriminate|].
    destruct (rk_samples vocab_size dist N s) as [vs s1] eqn:Hvs.
    destruct (Nat.leb_spec n term); [discriminate|].
    intros [= <- <-] i j Hj. apply set_column_entry_ne; [|exact Hj].
    rewrite length_map. change vs with (fst (vs, s1)).
    rewrite <- Hvs, length_rk_samples. symmetry. exact HN.
Qed.

Lemma perturb_terms_untouched vocab_size dist shuffle n N terms rs s :
  rows_rect n rs -> length rs = N ->
  forall i j, j ∉ terms ->
    entry (snd (fst (perturb_terms vocab_size dist shuffle n N terms rs s))) i j
    = entry rs i j.
Proof.
  revert rs s. induction terms as [|term terms IH]; intros rs s Hr HN i j Hj;
    simpl; [reflexivity|].
  apply not_elem_of_cons in Hj as [Hne Hj].
  destruct (perturb_step vocab_size dist shuffle n N term rs s) as [[rs'|e] s'] eqn:E;
    [|reflexivity].
  destruct (perturb_step_shape _ _ _ _ _ _ _ _ _ _ Hr HN E) as [Hr' HN'].
  rewrite (IH rs' s' Hr' HN' i j Hj).
  eapply perturb_step_untouched; eassumption.
Qed.



Lemma rk_samples_range a p size s :
  0 < a -> Forall (fun v => 0 <= v < a) (fst (rk_samples a p size s)).
Proof.
  intros Ha. revert s. induction size as [|size IH]; intros s; simpl; [constructor|].
  pose proof (rk_sample_range a p s Ha) as Hv.
  destruct (rk_sample a p s) as [v s']. specialize (IH s').
  destruct (rk_samples a p size s') as [vs s'']. simpl in *.
  constructor; assumption.
Qed.

Lemma astype_uint16_range a v : 0 <= v < a -> 0 <= astype_uint16 v < a.
Proof.
  intros Hv. unfold astype_uint16.
  pose proof (Z.mod_pos_bound v 65536 ltac:(lia)).
  pose proof (Z.mod_le v 65536 ltac:(lia) ltac:(lia)). lia.
Qed.



Lemma perturb_terms_ok vocab_size dist shuffle n N terms rs s :
  Forall (fun term => (term < n)%nat) terms ->
  shuffle = true \/ (0 < vocab_size /\ p_ok vocab_size dist = true) ->
  is_ok (fst (fst (perturb_terms vocab_size dist shuffle n N terms rs s))) = true.
Proof.
  intros Ht Hmode. revert rs s.
  induction Ht as [|term terms Hlt _ IH]; intros rs s; simpl; [reflexivity|].
  assert (exists rs' s', perturb_step vocab_size dist shuffle n N term rs s = (Ok rs', s'))
    as (rs' & s' & ->).
  { unfold perturb_step. destruct Hmode as [->|[Ha Hp]].
    - destruct (Nat.leb_spec n term); [lia|].
      destruct (rk_shuffle (column term rs) s). eauto.
    - destruct shuffle.
      + destruct (Nat.leb_spec n term); [lia|].
        destruct (rk_shuffle (column term rs) s). eauto.
      + destruct (Z.leb_spec vocab_size 0); [lia|]. rewrite Hp. simpl.
        destruct (rk_samples vocab_size dist N s).
        destruct (Nat.leb_spec n term); [lia|]. eauto. }
  apply IH.
Qed.

End PerturbProps.

Section Frame.

Context {G : Generator}.

Lemma splice_id a b :
  splice a (rows_of b a) b = b.
Proof.
  unfold splice, rows_of. destruct b as [n d]. simpl. f_equal.
  rewrite <- (take_drop (start a) d) at 4. f_equal.
  rewrite <- (take_drop (len a) (drop (start a) d)) at 2. f_equal.
  rewrite drop_drop. reflexivity.
Qed.

Lemma slice_index_range n i : 0 <= n -> 0 <= slice_index n i <= n.
Proof. intros Hn. unfold slice_index. destruct (Z.ltb_spec i 0); lia. Qed.

(** The rows of a slice of [x] once the rows of [x] have been replaced by
    [rs]. *)
Lemma rows_getslice_splice w' x rs b lo hi :
  arrays w' !! base x = Some (splice x rs b) ->
  (start x + len x <= length (data b))%nat ->
  length rs = len x ->
  rows w' (getslice x lo hi)
  = take (len (getslice x lo hi)) (drop (start (getslice x lo hi) - start x) rs).
Proof.
  intros Hw Hin Hrs. unfold rows. simpl base. rewrite Hw.
  set (n := Z.of_nat (len x)).
  assert (Hlo : 0 <= match lo with Some i => slice_index n i | None => 0 end <= n).
  { destruct lo; [apply slice_index_range|]; unfold n; lia. }
  assert (Hhi : 0 <= match hi with Some i => slice_index n i | None => n end <= n).
  { destruct hi; [apply slice_index_range|]; unfold n; lia. }
  apply rows_of_splice; try assumption; simpl; fold n; unfold n in *; lia.
Qed.


End Frame.

Section ArrayClaims.

Context {G : Generator}.

Lemma rows_length w a : is_array w a -> length (rows w a) = len a.
Proof.
  intros (b & Hb & Hin & _). unfold rows. rewrite Hb. apply rows_of_length, Hin.
Qed.

Lemma random_ngrams_facts w ngrams vocab_size (all_ : bool) dist shuffle b :
  arrays w !! base ngrams = Some b ->
  (start ngrams + len ngrams <= length (data b))%nat ->
  rect b ->
  let out := random_ngrams ngrams vocab_size all_ dist shuffle w in
  let l := fresh (dom (arrays w)) in
  exists rs',
    arrays (snd out) = <[l := {| cols := cols b; data := rs' |}]> (arrays w) /\
    np_random (snd out)
      = snd (perturb_terms vocab_size dist shuffle (cols b) (len ngrams)
               (xrange (if all_ then cols b else 1%nat)) (rows_of b ngrams)
               (np_random w)) /\
    rs' = snd (fst (perturb_terms vocab_size dist shuffle (cols b) (len ngrams)
               (xrange (if all_ then cols b else 1%nat)) (rows_of b ngrams)
               (np_random w))) /\
    fst out = match fst (fst (perturb_terms vocab_size dist shuffle (cols b)
                     (len ngrams) (xrange (if all_ then cols b else 1%nat))
                     (rows_of b ngrams) (np_random w))) with
              | Ok _ => Ok (whole l (len ngrams))
              | Raise e => Raise e
              end /\
    length rs' = len ngrams /\ rows_rect (cols b) rs'.
Proof.
  intros Hb Hin Hrect out l.
  destruct (random_ngrams_run w ngrams vocab_size all_ dist shuffle b Hb Hin Hrect)
    as (w' & Hrun & Harr & Hnp & _).
  destruct (perturb_terms_shape vocab_size dist shuffle (cols b) (len ngrams)
              (xrange (if all_ then cols b else 1%nat)) (rows_of b ngrams)
              (np_random w) (rows_of_rect b ngrams Hrect)
              (rows_of_length b ngrams Hin)) as [Hr HN].
  eexists. subst out. rewrite Hrun. simpl.
  split; [exact Harr|]. split; [exact Hnp|]. split; [reflexivity|].
  split; [reflexivity|]. split; assumption.
Qed.

Lemma rows_whole w l n rs :
  arrays w !! l = Some {| cols := n; data := rs |} ->
  rows w (whole l (length rs)) = rs.
Proof. intros H. unfold rows. simpl. rewrite H. apply rows_of_whole. Qed.


(** C7: [random_ngrams] leaves every buffer of the store, and so the rows
    of its input, as they were; a result has the row count and the column
    count of the input; with [all = False] every column of the result but
    column 0 equals the same column of the input, entry for entry.  A
    result there is, on an input of at least one column, when shuffling, or
    when sampling from a vocabulary of positive size with an acceptable
    distribution. *)
Theorem random_ngrams_shape_and_frame (w : world) (ngrams : ndarray)
    (vocab_size : Z) (all : bool) (dist : option (list float)) (shuffle : bool) :
  is_array w ngrams ->
  let out := random_ngrams ngrams vocab_size all dist shuffle w in
  (forall l, is_Some (arrays w !! l) -> arrays (snd out) !! l = arrays w !! l) /\
  rows (snd out) ngrams = rows w ngrams /\
  (forall r_val, fst out = Ok r_val ->
     len r_val = len ngrams /\
     length (rows (snd out) r_val) = length (rows w ngrams) /\
     fst (shape1 r_val (snd out)) = fst (shape1 ngrams w) /\
     (all = false -> forall i j, (1 <= j)%nat ->
        entry (rows (snd out) r_val) i j = entry (rows w ngrams) i j)) /\
  (forall n, fst (shape1 ngrams w) = Ok n -> (1 <= n)%nat ->
     shuffle = true \/ (0 < vocab_size /\ p_ok vocab_size dist = true) ->
     is_ok (fst out) = true).
Proof.
  intros (b & Hb & Hin & Hrect) out.
  destruct (random_ngrams_facts w ngrams vocab_size all dist shuffle b Hb Hin Hrect)
    as (rs' & Harr & _ & Hrs' & Hres & HN & Hr).
  fold out in Harr, Hres.
  assert (Hold : forall l, is_Some (arrays w !! l) ->
            arrays (snd out) !! l = arrays w !! l).
  { intros l [b' Hl]. rewrite Harr. apply lookup_insert_ne.
    intros E. rewrite <- E, fresh_array_loc in Hl. discriminate. }
  split; [exact Hold|]. split.
  { unfold rows. rewrite Hold by (rewrite Hb; eauto). reflexivity. }
  split.
  - intros r_val Hok. rewrite Hres in Hok.
    destruct (fst (fst (perturb_terms _ _ _ _ _ _ _ _))) as [[]|e] eqn:E;
      [|discriminate].
    injection Hok as <-.
    assert (Hl : arrays (snd out) !! fresh (dom (arrays w))
                 = Some {| cols := cols b; data := rs' |})
      by (rewrite Harr; apply lookup_insert_eq).
    split; [reflexivity|]. rewrite <- HN.
    rewrite (rows_whole _ _ _ _ Hl).
    split; [unfold rows; rewrite Hb, rows_of_length by exact Hin; exact HN|].
    split.
    { unfold shape1, bind, read_buffer. simpl. rewrite Hl, Hb. reflexivity. }
    intros -> i j Hj. rewrite Hrs'. unfold rows at 1. rewrite Hb.
    apply perturb_terms_untouched.
    + apply rows_of_rect, Hrect.
    + apply rows_of_length, Hin.
    + unfold xrange. rewrite elem_of_seq. lia.
  - intros n Hn Hpos Hmode. rewrite Hres.
    unfold shape1, bind, read_buffer in Hn. rewrite Hb in Hn.
    injection Hn as <-.
    pose proof (perturb_terms_ok vocab_size dist shuffle (cols b) (len ngrams)
                  (xrange (if all then cols b else 1%nat)) (rows_of b ngrams)
                  (np_random w)) as Hok.
    destruct (fst (fst (perturb_terms _ _ _ _ _ _ _ _))); [reflexivity|].
    apply Hok; [|exact Hmode].
    apply Forall_forall. intros term Hterm. unfold xrange in Hterm.
    apply elem_of_seq in Hterm. destruct all; lia.
Qed.


End ArrayClaims.

Section Ownership.

Context {G : Generator}.

Lemma dataset_split_ok_views w x v t rng_a train valid test :
  fst (dataset_split x v t rng_a w) = Ok (train, valid, test) ->
  exists i1 i2,
    result_bind (int_mul_float (shape0 x) (fsub (fsub f1 v) t)) int_of_float = Ok i1 /\
    result_bind (int_mul_float (shape0 x) (fsub f1 t)) int_of_float = Ok i2 /\
    flt f0 v && flt f0 t = true /\ flt (fadd v t) f1 = true /\
    is_Some (rng_state w rng_a) /\
    train = getslice x None (Some i1) /\
    valid = getslice x (Some i1) (Some i2) /\
    test = getslice x (Some i2) None.
Proof.
  unfold dataset_split, bind, py_assert.
  destruct (flt f0 v && flt f0 t); simpl; [|discriminate].
  destruct (flt (fadd v t) f1); simpl; [|discriminate].
  assert (Hrng : forall g w1,
    rng_of_arg rng_a w = (Ok g, w1) ->
    forall w2, rng_shuffle g x w1 = (Ok tt, w2) -> is_Some (rng_state w rng_a)).
  { intros g w1 Hg w2 Hsh. unfold rng_of_arg in Hg. destruct rng_a as [|seed|r]; simpl in *.
    - eauto.
    - destruct (rk_seed seed); [eauto|discriminate].
    - injection Hg as <- <-. unfold rng_shuffle in Hsh.
      destruct (gens w !! r); [eauto|discriminate]. }
  destruct (rng_of_arg rng_a w) as [[g|e] w1]; [|discriminate].
  specialize (Hrng g w1 eq_refl).
  destruct (rng_shuffle g x w1) as [[[]|e] w2]; [|discriminate].
  specialize (Hrng w2 eq_refl). unfold lift.
  destruct (result_bind (int_mul_float (shape0 x) (fsub (fsub f1 v) t)) int_of_float)
    as [i1|e]; simpl; [|discriminate].
  destruct (result_bind (int_mul_float (shape0 x) (fsub f1 t)) int_of_float)
    as [i2|e]; simpl; [|discriminate].
  intros [= <- <- <-]. exists i1, i2. repeat split; assumption.
Qed.



Lemma dataset_split_fst w x v t rng_a b :
  arrays w !! base x = Some b ->
  fst (dataset_split x v t rng_a w) =
    if negb (flt f0 v && flt f0 t) then Raise AssertionError
    else if negb (flt (fadd v t) f1) then Raise AssertionError
    else
      match rng_state w rng_a with
      | None =>
          Raise (match rng_a with RngInt _ => ValueError | _ => AttributeError end)
      | Some _ =>
          result_bind
            (result_bind (int_mul_float (shape0 x) (fsub (fsub f1 v) t)) int_of_float)
            (fun i1 =>
          result_bind
            (result_bind (int_mul_float (shape0 x) (fsub f1 t)) int_of_float)
            (fun i2 =>
          Ok (getslice x None (Some i1), getslice x (Some i1) (Some i2),
              getslice x (Some i2) None)))
      end.
Proof.
  intros Hb. unfold dataset_split, bind, py_assert.
  destruct (flt f0 v && flt f0 t); simpl; [|reflexivity].
  destruct (flt (fadd v t) f1); simpl; [|reflexivity].
  destruct (rng_state w rng_a) as [s|] eqn:Hs.
  - destruct (rng_shuffle_eq rng_a x w b s Hb Hs) as (g & w1 & w2 & -> & -> & _).
    unfold lift.
    destruct (result_bind (int_mul_float (shape0 x) (fsub (fsub f1 v) t)) int_of_float);
      simpl; [|reflexivity].
    destruct (result_bind (int_mul_float (shape0 x) (fsub f1 t)) int_of_float);
      reflexivity.
  - unfold rng_of_arg. destruct rng_a as [|seed|r]; simpl in Hs; [discriminate| |].
    + rewrite Hs. reflexivity.
    + unfold ret, rng_shuffle. simpl. rewrite Hs. reflexivity.
Qed.

Lemma value_of_fst w a b :
  arrays w !! base a = Some b ->
  fst (value_of a w) = Ok (Arr2 (cols b) (rows_of b a)).
Proof. intros Hb. unfold value_of, bind, read_buffer. rewrite Hb. reflexivity. Qed.

Lemma value_getslice_splice w' x rs b lo hi :
  arrays w' !! base x = Some (splice x rs b) ->
  (start x + len x <= length (data b))%nat ->
  length rs = len x ->
  fst (value_of (getslice x lo hi) w')
  = Ok (Arr2 (cols b)
          (take (len (getslice x lo hi))
             (drop (start (getslice x lo hi) - start x) rs))).
Proof.
  intros Hw Hin Hrs.
  rewrite (value_of_fst w' (getslice x lo hi) (splice x rs b)) by exact Hw.
  pose proof (rows_getslice_splice w' x rs b lo hi Hw Hin Hrs) as Hr.
  unfold rows in Hr. simpl base in Hr. rewrite Hw in Hr. rewrite Hr. reflexivity.
Qed.

(** C5: two runs of [dataset_split] on arrays of equal value with the same
    integer seed end the same way, and when they return, the three results
    of the one have the values of the three results of the other; two runs
    of [random_ngrams] on arrays of equal value and equal arguments, started
    with the generator of [numpy.random] in the same state, end the same way
    with results of equal value. *)
Theorem seeded_runs_agree (w1 w2 : world) (x1 x2 : ndarray) :
  is_array w1 x1 -> is_array w2 x2 ->
  fst (value_of x1 w1) = fst (value_of x2 w2) ->
  (forall validation test seed,
     let out1 := dataset_split x1 validation test (RngInt seed) w1 in
     let out2 := dataset_split x2 validation test (RngInt seed) w2 in
     same_outcome
       (fun '(tr1, va1, te1) '(tr2, va2, te2) =>
          fst (value_of tr1 (snd out1)) = fst (value_of tr2 (snd out2)) /\
          fst (value_of va1 (snd out1)) = fst (value_of va2 (snd out2)) /\
          fst (value_of te1 (snd out1)) = fst (value_of te2 (snd out2)))
       (fst out1) (fst out2)) /\
  (forall vocab_size all dist shuffle,
     np_random w1 = np_random w2 ->
     let out1 := random_ngrams x1 vocab_size all dist shuffle w1 in
     let out2 := random_ngrams x2 vocab_size all dist shuffle w2 in
     same_outcome
       (fun r1 r2 => fst (value_of r1 (snd out1)) = fst (value_of r2 (snd out2)))
       (fst out1) (fst out2)).
Proof.
  intros (b1 & Hb1 & Hin1 & Hrect1) (b2 & Hb2 & Hin2 & Hrect2) Hval.
  rewrite (value_of_fst w1 x1 b1 Hb1), (value_of_fst w2 x2 b2 Hb2) in Hval.
  injection Hval as Hcols Hrows.
  assert (Hlen : len x1 = len x2).
  { rewrite <- (rows_of_length b1 x1 Hin1), <- (rows_of_length b2 x2 Hin2).
    rewrite Hrows. reflexivity. }
  split.
  - intros validation test seed out1 out2.
    pose proof (dataset_split_fst w1 x1 validation test (RngInt seed) b1 Hb1) as H1.
    pose proof (dataset_split_fst w2 x2 validation test (RngInt seed) b2 Hb2) as H2.
    fold out1 in H1. fold out2 in H2.
    assert (Hshape : shape0 x1 = shape0 x2) by (unfold shape0; rewrite Hlen; reflexivity).
    rewrite Hshape in H1. simpl rng_state in H1, H2.
    destruct (fst out1) as [[[tr1 va1] te1]|e1] eqn:E1.
    + apply dataset_split_ok_views in E1
        as (i1 & i2 & Hi1 & Hi2 & Hp & Hsum & [s Hs] & -> & -> & ->).
      simpl in Hs.
      destruct (dataset_split_run w1 x1 validation test (RngInt seed) b1 s i1 i2
                  Hb1 Hp Hsum Hs Hi1 Hi2) as (w1' & Hrun1 & Harr1 & _).
      rewrite Hshape in Hi1, Hi2.
      destruct (dataset_split_run w2 x2 validation test (RngInt seed) b2 s i1 i2
                  Hb2 Hp Hsum Hs Hi1 Hi2) as (w2' & Hrun2 & Harr2 & _).
      fold out1 in Hrun1. fold out2 in Hrun2.
      rewrite Hrun1, Hrun2. simpl.
      rewrite Hrows in Harr1.
      set (rs := fst (rk_shuffle (rows_of b2 x2) s)) in *.
      assert (Hrs2 : length rs = len x2)
        by (unfold rs; rewrite rk_shuffle_length; apply rows_of_length, Hin2).
      assert (Hrs1 : length rs = len x1) by congruence.
      assert (Hw1 : arrays w1' !! base x1 = Some (splice x1 rs b1))
        by (rewrite Harr1; apply lookup_insert_eq).
      assert (Hw2 : arrays w2' !! base x2 = Some (splice x2 rs b2))
        by (rewrite Harr2; apply lookup_insert_eq).
      rewrite !(value_getslice_splice w1' x1 rs b1 _ _ Hw1 Hin1 Hrs1).
      rewrite !(value_getslice_splice w2' x2 rs b2 _ _ Hw2 Hin2 Hrs2).
      simpl. rewrite Hlen, Hcols.
      repeat match goal with
             | |- context [(start ?x + ?k - start ?x)%nat] =>
                 replace (start x + k - start x)%nat with k by lia
             end.
      repeat split.
    + rewrite H2. rewrite H1. simpl.
      destruct (negb (flt f0 validation && flt f0 test)); [reflexivity|].
      destruct (negb (flt (fadd validation test) f1)); [reflexivity|].
      destruct (rk_seed seed); [|reflexivity].
      destruct (result_bind (int_mul_float (shape0 x2) _) int_of_float) as [i1|];
        simpl in *; [|reflexivity].
      destruct (result_bind (int_mul_float (shape0 x2) (fsub f1 test)) int_of_float);
        simpl in *; [discriminate|reflexivity].
  - intros vocab_size all_ dist shuffle Hnp out1 out2.
    destruct (random_ngrams_facts w1 x1 vocab_size all_ dist shuffle b1 Hb1 Hin1 Hrect1)
      as (rs1 & Harr1 & _ & Hrs1 & Hres1 & _).
    destruct (random_ngrams_facts w2 x2 vocab_size all_ dist shuffle b2 Hb2 Hin2 Hrect2)
      as (rs2 & Harr2 & _ & Hrs2 & Hres2 & _).
    fold out1 in Harr1, Hres1. fold out2 in Harr2, Hres2.
    rewrite Hcols, Hlen, Hrows, Hnp in Hrs1, Hres1.
    rewrite <- Hrs2 in Hrs1. subst rs1.
    rewrite Hres1, Hres2.
    destruct (fst (fst (perturb_terms _ _ _ _ _ _ _ _))) as [[]|e]; simpl;
      [|reflexivity].
    rewrite (value_of_fst (snd out1) _ {| cols := cols b1; data := rs2 |})
      by (rewrite Harr1; apply lookup_insert_eq).
    rewrite (value_of_fst (snd out2) _ {| cols := cols b2; data := rs2 |})
      by (rewrite Harr2; apply lookup_insert_eq).
    simpl. rewrite Hcols. reflexivity.
Qed.

End Ownership.

Section Assertions.

Context {G : Generator}.




End Assertions.

Section Callbacks.

Context {G : Generator} {L : Model} {U : Ufuncs}.

Lemma argmax_from_first_max (ip pre : list float) (mp : float) (max_ind : nat) :
  no_nan pre -> no_nan ip ->
  pre !! max_ind = Some mp ->
  (forall j sj, pre !! j = Some sj -> fle sj mp = true) ->
  (forall j sj, (j < max_ind)%nat -> pre !! j = Some sj -> flt sj mp = true) ->
  first_max (pre ++ ip) (argmax_from mp max_ind (length pre) ip).
Proof.
  unfold no_nan. revert pre mp max_ind.
  induction ip as [|v ip IH]; intros pre mp max_ind Hpre Hip Hmp Hle Hlt; simpl.
  - rewrite app_nil_r. exists mp. auto.
  - apply Forall_cons in Hip as [Hv Hip].
    assert (Hmpn : is_nan mp = false).
    { rewrite Forall_forall in Hpre. apply Hpre.
      eapply list_elem_of_lookup_2, Hmp. }
    replace (pre ++ v :: ip) with ((pre ++ [v]) ++ ip)
      by (rewrite <- app_assoc; reflexivity).
    replace (S (length pre)) with (length (pre ++ [v]))
      by (rewrite length_app; simpl; lia).
    assert (Hpre' : no_nan (pre ++ [v])).
    { apply Forall_app. split; [exact Hpre|]. constructor; [exact Hv|constructor]. }
    destruct (fle v mp) eqn:Hvm; simpl.
    + apply IH; try assumption.
      * rewrite lookup_app_l by (eapply lookup_lt_Some, Hmp). exact Hmp.
      * intros j sj Hj. apply lookup_app_Some in Hj as [Hj|[_ Hj]].
        -- eapply Hle, Hj.
        -- apply list_lookup_singleton_Some in Hj as [_ <-]. exact Hvm.
      * intros j sj Hjlt Hj. apply lookup_app_Some in Hj as [Hj|[Hge _]].
        -- eapply Hlt; eassumption.
        -- apply lookup_lt_Some in Hmp. lia.
    + rewrite Hv.
      assert (Hgt : flt mp v = true) by (apply not_fle_flt; assumption).
      apply IH; try assumption.
      * rewrite lookup_app_r by lia. rewrite Nat.sub_diag. reflexivity.
      * intros j sj Hj. apply lookup_app_Some in Hj as [Hj|[_ Hj]].
        -- apply flt_fle. eapply fle_flt_trans; [eapply Hle, Hj|exact Hgt].
        -- apply list_lookup_singleton_Some in Hj as [_ <-]. apply fle_refl, Hv.
      * intros j sj Hjlt Hj. apply lookup_app_Some in Hj as [Hj|[Hge _]]; [|lia].
        eapply fle_flt_trans; [eapply Hle, Hj|exact Hgt].
Qed.

Lemma np_argmax_first_max (g : list float) :
  g <> [] -> no_nan g -> exists p, np_argmax g = Ok p /\ first_max g p.
Proof.
  unfold no_nan. intros Hne Hn. destruct g as [|mp ip]; [congruence|]. simpl.
  apply Forall_cons in Hn as [Hmp Hip]. rewrite Hmp.
  eexists. split; [reflexivity|].
  apply (argmax_from_first_max ip [mp] mp 0).
  - constructor; [exact Hmp|constructor].
  - exact Hip.
  - reflexivity.
  - intros [|j] sj Hj; simpl in Hj; [|discriminate].
    injection Hj as <-. apply fle_refl, Hmp.
  - intros j sj Hj. lia.
Qed.

Lemma np_argmax_tie (s0 s1 : float) :
  s1 = s0 \/ SFeqb s0 s1 = true -> np_argmax [s0; s1] = Ok 0%nat.
Proof.
  intros [->|Heq]; simpl.
  - destruct (is_nan s0) eqn:Hn; [reflexivity|].
    rewrite (fle_refl s0 Hn). reflexivity.
  - destruct (is_nan s0); [reflexivity|].
    assert (fle s1 s0 = true) as ->; [|reflexivity].
    unfold fle, SFleb. rewrite (SFcompare_antisym s0 s1).
    unfold SFeqb in Heq. destruct (SFcompare s0 s1) as [[]|]; try discriminate.
    reflexivity.
Qed.

Lemma result_map_Forall2 {A B} (f : A -> result B) (l : list A) (bs : list B) :
  result_map f l = Ok bs -> Forall2 (fun a b => f a = Ok b) l bs.
Proof.
  revert bs. induction l as [|a l IH]; intros bs; simpl.
  - intros [= <-]. constructor.
  - destruct (f a) as [b|e] eqn:Ha; simpl; [|discriminate].
    destruct (result_map f l) as [bs'|e]; simpl; [|discriminate].
    intros [= <-]. constructor; [exact Ha|apply IH; reflexivity].
Qed.

Lemma result_map_ok {A B} (f : A -> result B) (l : list A) :
  Forall (fun a => is_ok (f a) = true) l -> is_ok (result_map f l) = true.
Proof.
  induction 1 as [|a l Ha _ IH]; simpl; [reflexivity|].
  destruct (f a); [|discriminate]. simpl.
  destruct (result_map f l); [reflexivity|discriminate].
Qed.


Lemma predictions_first_max (scores : list (list float)) :
  Forall (fun g => g <> [] /\ no_nan g) scores ->
  exists preds, predictions scores = Ok preds /\ Forall2 first_max scores preds.
Proof.
  unfold predictions. induction 1 as [|g scores [Hne Hn] _ (preds & Hp & Hf)]; simpl.
  - exists []. split; [reflexivity|constructor].
  - destruct (np_argmax_first_max g Hne Hn) as (p & -> & Hfm). simpl.
    rewrite Hp. simpl. exists (p :: preds). split; [reflexivity|].
    constructor; assumption.
Qed.

(** C9: the score of a candidate is the sum of the logarithms of the
    unnormalised scores the model gives to its n-grams; for groups that are
    not empty and hold no NaN the prediction is the first index whose score
    no other score exceeds, the argmax with ties going to the lowest index;
    the accuracy appended is the mean of the agreement of predictions and
    answers; and a group of two candidates of equal score is given the
    prediction 0. *)
Theorem sentence_completion_predictions (q_groups : list (list ndvalue))
    (answers : list Z) (m : lrbm) (epoch : Z) (w : world)
    (scores : list (list float)) :
  qg_log_lik q_groups m = Ok scores ->
  Forall2 (Forall2 (fun q s =>
             exists u, unnp_f m q = Ok u /\ s = np_sum (map np_log u)))
          q_groups scores /\
  (Forall (fun g => g <> [] /\ no_nan g) scores ->
     exists preds, predictions scores = Ok preds /\
                   Forall2 first_max scores preds) /\
  (forall preds hits,
     predictions scores = Ok preds ->
     np_equal (map Z.of_nat preds) answers = Ok hits ->
     epoch_callback q_groups answers m epoch w
     = append_sent_challenge (mean_bool hits) w) /\
  (forall s0 s1, s1 = s0 \/ SFeqb s0 s1 = true ->
     predictions [[s0; s1]] = Ok [0%nat]).
Proof.
  intros Hscores. split; [|split; [|split]].
  - unfold qg_log_lik in Hscores. apply result_map_Forall2 in Hscores.
    eapply Forall2_impl; [exact Hscores|]. intros q_g ss Hq. simpl in Hq.
    apply result_map_Forall2 in Hq.
    eapply Forall2_impl; [exact Hq|]. intros q s Hs. simpl in Hs.
    destruct (unnp_f m q) as [u|e]; simpl in Hs; [|discriminate].
    injection Hs as <-. eauto.
  - apply predictions_first_max.
  - intros preds hits Hp Hh. unfold epoch_callback, bind, lift.
    rewrite Hscores, Hp, Hh. reflexivity.
  - intros s0 s1 Htie.
    change (predictions [[s0; s1]])
      with (result_bind (np_argmax [s0; s1]) (fun p => Ok [p])).
    rewrite (np_argmax_tie s0 s1 Htie). reflexivity.
Qed.

Lemma qg_log_lik_empty_group (q_groups : list (list ndvalue)) (m : lrbm)
    (scores : list (list float)) :
  qg_log_lik q_groups m = Ok scores -> [] ∈ q_groups -> [] ∈ scores.
Proof.
  unfold qg_log_lik. intros Hs Hin. apply result_map_Forall2 in Hs.
  induction Hs as [|q_g ss q_groups scores Hq _ IH].
  - inversion Hin.
  - apply elem_of_cons in Hin as [<-|Hin].
    + simpl in Hq. injection Hq as <-. apply elem_of_cons. left. reflexivity.
    + apply elem_of_cons. right. apply IH, Hin.
Qed.

Lemma predictions_empty_group (scores : list (list float)) :
  [] ∈ scores -> predictions scores = Raise ValueError.
Proof.
  unfold predictions. induction scores as [|g scores IH]; intros Hin.
  - inversion Hin.
  - apply elem_of_cons in Hin as [<-|Hin]; [reflexivity|].
    simpl. destruct g as [|mp ip]; [reflexivity|]. simpl.
    rewrite (IH Hin). reflexivity.
Qed.

(** C10: when one of the candidate groups is empty, [epoch_callback] raises
    and appends no accuracy, the store being left as it was; when the scores
    of the other groups can be computed, the error is the [ValueError] of
    [np.argmax] on an empty sequence. *)
Theorem epoch_callback_empty_group (q_groups : list (list ndvalue))
    (answers : list Z) (m : lrbm) (epoch : Z) (w : world) :
  [] ∈ q_groups ->
  (exists e, epoch_callback q_groups answers m epoch w = (Raise e, w)) /\
  (is_ok (qg_log_lik q_groups m) = true ->
   epoch_callback q_groups answers m epoch w = (Raise ValueError, w)).
Proof.
  intros Hin. unfold epoch_callback, bind, lift.
  destruct (qg_log_lik q_groups m) as [scores|e] eqn:Hs.
  - rewrite (predictions_empty_group scores
               (qg_log_lik_empty_group q_groups m scores Hs Hin)).
    split; [eauto|reflexivity].
  - split; [eauto|discriminate].
Qed.

Lemma getitem_out_of_bounds w a i :
  0 <= i -> Z.of_nat (len a) <= i -> getitem a i w = (Raise IndexError, w).
Proof.
  intros Hi Hlen. unfold getitem.
  destruct (Z.ltb_spec i 0); [lia|].
  destruct (Z.ltb_spec i 0); [lia|].
  destruct (Z.leb_spec (Z.of_nat (len a)) i); [reflexivity|lia].
Qed.

Lemma getitem_row w a i b row :
  arrays w !! base a = Some b ->
  0 <= i -> i < Z.of_nat (len a) ->
  rows_of b a !! Z.to_nat i = Some row ->
  getitem a i w = (Ok (Arr1 row), w).
Proof.
  intros Hb Hi Hlen Hrow. unfold getitem.
  destruct (Z.ltb_spec i 0); [lia|].
  destruct (Z.ltb_spec i 0); [lia|].
  destruct (Z.leb_spec (Z.of_nat (len a)) i); [lia|].
  simpl. unfold bind, read_buffer. rewrite Hb, Hrow. reflexivity.
Qed.

Lemma mnb_callback_fires x_valid x_valid_r m epoch mnb :
  mnb mod 10 = 9 ->
  mnb_callback x_valid x_valid_r m epoch mnb =
    (let* batch := getitem x_valid _LOG_LIK_SIZE in
     let* p := lift (probability_f m batch) in
     let* _ := append_x_valid_ll (np_mean (map np_log p)) in
     let* v := value_of x_valid in
     let* u := lift (unnp_f m v) in
     let* v_r := value_of x_valid_r in
     let* u_r := lift (unnp_f m v_r) in
     let* q := lift (np_divide u u_r) in
     append_x_valid_ll_ratio (np_mean (map np_log q))).
Proof. intros H. unfold mnb_callback. rewrite H. reflexivity. Qed.

(** C1: on a minibatch where the tracker fires ([mnb % 10 == 9]), the value
    appended to [x_valid_ll] is the mean of the logarithms of the
    probabilities of the single row [x_valid[_LOG_LIK_SIZE]], the row of
    index 100, not of the first 100 rows; and on a validation set of at most
    100 rows, 100 included, the callback raises [IndexError] and appends
    nothing. *)
Theorem mnb_callback_log_lik_batch (x_valid x_valid_r : ndarray) (m : lrbm)
    (epoch mnb : Z) (w : world) :
  is_array w x_valid ->
  mnb mod 10 = 9 ->
  ((Z.of_nat (len x_valid) <= _LOG_LIK_SIZE) ->
   mnb_callback x_valid x_valid_r m epoch mnb w = (Raise IndexError, w)) /\
  (forall row p,
     rows w x_valid !! Z.to_nat _LOG_LIK_SIZE = Some row ->
     probability_f m (Arr1 row) = Ok p ->
     x_valid_ll (snd (mnb_callback x_valid x_valid_r m epoch mnb w))
     = x_valid_ll w ++ [np_mean (map np_log p)]).
Proof.
  intros (b & Hb & Hin & _) Hmnb.
  rewrite (mnb_callback_fires _ _ _ _ _ Hmnb). split.
  - intros Hlen. unfold bind at 1.
    rewrite getitem_out_of_bounds by (unfold _LOG_LIK_SIZE in *; lia).
    reflexivity.
  - intros row p Hrow Hp. unfold rows in Hrow. rewrite Hb in Hrow.
    assert (Hlt : _LOG_LIK_SIZE < Z.of_nat (len x_valid)).
    { apply lookup_lt_Some in Hrow. rewrite rows_of_length in Hrow by exact Hin.
      unfold _LOG_LIK_SIZE in *. lia. }
    unfold bind at 1.
    rewrite (getitem_row w x_valid _LOG_LIK_SIZE b row Hb)
      by (try exact Hrow; unfold _LOG_LIK_SIZE in *; lia).
    unfold bind at 1, lift at 1. rewrite Hp.
    cbv beta delta [bind value_of read_buffer lift append_x_valid_ll
                      append_x_valid_ll_ratio ret].
    simpl. rewrite Hb. simpl.
    destruct (unnp_f m (Arr2 (cols b) (rows_of b x_valid))); simpl; [|reflexivity].
    destruct (arrays w !! base x_valid_r); simpl; [|reflexivity].
    destruct (unnp_f m _); simpl; [|reflexivity].
    destruct (np_divide _ _); reflexivity.
Qed.

End Callbacks.

Section SplitFacts.

Context {G : Generator}.

Lemma split_indices_empty (v t : float) :
  is_float v -> is_float t ->
  flt f0 v && flt f0 t = true -> flt (fadd v t) f1 = true ->
  result_bind (int_mul_float 0 (fsub (fsub f1 v) t)) int_of_float = Ok 0 /\
  result_bind (int_mul_float 0 (fsub f1 t)) int_of_float = Ok 0.
Proof.
  intros Hv Ht Hpos Hsum. apply andb_prop in Hpos as [Hv0 Ht0].
  assert (H1 : (0 < 53)) by lia.
  assert (H2 : (53 < 1024)) by lia.
  assert (H3 : 53 - SpecFloat.emin 53 1024 <= 1200)
    by (unfold SpecFloat.emin; lia).
  destruct (cuts_ordered 53 1024 1200 H1 H2 H3 v t 1 63 Hv Ht ltac:(lia)
              ltac:(lia) Hv0 Ht0 Hsum)
    as (mn & en & P1 & P2 & Hnf & Hp1 & _ & Hp2 & _ & _).
  change (one 53) with f1 in Hp1, Hp2.
  change (SFsub 53 1024) with fsub in Hp1, Hp2.
  assert (Hz : forall c P,
            fval 1200 (SFmul 53 1024 (S754_finite false mn en) c) = Some P ->
            result_bind (int_mul_float 0 c) int_of_float = Ok 0).
  { intros c P Hc. unfold int_mul_float, float_of_int.
    change (of_Z 0) with (S754_zero false). cbn [result_bind].
    unfold fmul. destruct c as [s| s| |s m e]; try discriminate; reflexivity. }
  split; [exact (Hz _ _ Hp1)|exact (Hz _ _ Hp2)].
Qed.

Lemma split_indices_exist (n : Z) (v t : float) :
  is_float v -> is_float t -> 0 <= n < 2 ^ 63 ->
  flt f0 v && flt f0 t = true -> flt (fadd v t) f1 = true ->
  exists i1 i2,
    result_bind (int_mul_float n (fsub (fsub f1 v) t)) int_of_float = Ok i1 /\
    result_bind (int_mul_float n (fsub f1 t)) int_of_float = Ok i2 /\
    0 <= i1 <= i2 /\ (n = 0 -> i1 = 0 /\ i2 = 0).
Proof.
  intros Hv Ht Hn Hpos Hsum.
  destruct (Z.eq_dec n 0) as [->|Hne].
  - destruct (split_indices_empty v t Hv Ht Hpos Hsum) as [H1 H2].
    exists 0, 0. repeat split; first [assumption|lia].
  - destruct (split_indices_ordered n v t Hv Ht ltac:(lia) Hpos Hsum)
      as (i1 & i2 & H1 & H2 & Hi).
    exists i1, i2. repeat split; first [assumption|lia].
Qed.

Lemma rect_splice (x : ndarray) (rs : list (list Z)) (b : buffer) :
  rect b -> rows_rect (cols b) rs -> rect (splice x rs b).
Proof.
  intros Hb Hrs. unfold rect, splice. simpl.
  apply Forall_app. split; [apply Forall_take, Hb|].
  apply Forall_app. split; [exact Hrs|apply Forall_drop, Hb].
Qed.

Lemma length_splice (x : ndarray) (rs : list (list Z)) (b : buffer) :
  (start x + len x <= length (data b))%nat -> length rs = len x ->
  length (data (splice x rs b)) = length (data b).
Proof.
  intros Hin Hrs. unfold splice. simpl.
  rewrite !length_app, length_take, length_drop. lia.
Qed.

Lemma views_tile (w' : world) (x : ndarray) (rs : list (list Z)) (b : buffer)
    (i1 i2 : Z) :
  arrays w' !! base x = Some (splice x rs b) ->
  (start x + len x <= length (data b))%nat ->
  length rs = len x -> 0 <= i1 <= i2 ->
  rows w' (getslice x None (Some i1)) ++
  rows w' (getslice x (Some i1) (Some i2)) ++
  rows w' (getslice x (Some i2) None) = rs.
Proof.
  intros Hw' Hin Hrs Hi.
  rewrite !(rows_getslice_splice w' x rs b _ _ Hw' Hin Hrs).
  set (n := Z.of_nat (len x)) in *.
  set (a1 := Z.to_nat (Z.min i1 n)). set (a2 := Z.to_nat (Z.min i2 n)).
  assert (Ha : (a1 <= a2 <= len x)%nat) by (unfold a1, a2, n; lia).
  assert (E1 : getslice x None (Some i1)
               = {| base := base x; start := start x + 0; len := a1 |}).
  { unfold getslice, slice_index. fold n.
    destruct (Z.ltb_spec i1 0); [lia|]. f_equal. unfold a1. lia. }
  assert (E2 : getslice x (Some i1) (Some i2)
               = {| base := base x; start := start x + a1; len := a2 - a1 |}).
  { unfold getslice, slice_index. fold n.
    destruct (Z.ltb_spec i1 0); [lia|]. destruct (Z.ltb_spec i2 0); [lia|].
    f_equal; unfold a1, a2; lia. }
  assert (E3 : getslice x (Some i2) None
               = {| base := base x; start := start x + a2; len := len x - a2 |}).
  { unfold getslice, slice_index. fold n.
    destruct (Z.ltb_spec i2 0); [lia|]. f_equal; unfold a2, n; lia. }
  rewrite E1, E2, E3. cbn [base start len].
  replace (start x + 0 - start x)%nat with 0%nat by lia.
  replace (start x + a1 - start x)%nat with a1 by lia.
  replace (start x + a2 - start x)%nat with a2 by lia.
  rewrite drop_0.
  rewrite (take_ge (drop a2 rs)) by (rewrite length_drop; lia).
  rewrite <- (take_drop a1 rs) at 4. f_equal.
  rewrite <- (take_drop (a2 - a1) (drop a1 rs)) at 2.
  rewrite drop_drop. replace (a1 + (a2 - a1))%nat with a2 by lia. reflexivity.
Qed.

Lemma getslice_within (x : ndarray) (lo hi : option Z) :
  base (getslice x lo hi) = base x /\
  (start x <= start (getslice x lo hi))%nat /\
  (start (getslice x lo hi) + len (getslice x lo hi) <= start x + len x)%nat.
Proof.
  unfold getslice. cbn [base start len].
  set (n := Z.of_nat (len x)).
  assert (Hlo : 0 <= match lo with Some i => slice_index n i | None => 0 end <= n).
  { destruct lo; [apply slice_index_range|]; unfold n; lia. }
  assert (Hhi : 0 <= match hi with Some i => slice_index n i | None => n end <= n).
  { destruct hi; [apply slice_index_range|]; unfold n; lia. }
  unfold n in *. repeat split; lia.
Qed.

(** X1: when [dataset_split] returns, the rows of the training set, of the
    validation set and of the test set, put end to end, are the rows of the
    shuffled array, in its order: the three results are views on [x] that
    follow one another, each within the bounds of [x], and together cover
    it.  This holds for every array of fewer than [2^63] rows, an empty one
    included. *)
Theorem dataset_split_tiles (w : world) (x : ndarray) (v t : float)
    (rng : rng_arg) :
  is_array w x -> Z.of_nat (len x) < 2 ^ 63 ->
  is_float v -> is_float t ->
  flt f0 v && flt f0 t = true -> flt (fadd v t) f1 = true ->
  is_Some (rng_state w rng) ->
  exists train valid test w',
    dataset_split x v t rng w = (Ok (train, valid, test), w') /\
    rows w' train ++ rows w' valid ++ rows w' test = rows w' x /\
    is_array w' train /\ is_array w' valid /\ is_array w' test /\
    start train = start x /\
    start valid = (start train + len train)%nat /\
    start test = (start valid + len valid)%nat /\
    (start test + len test = start x + len x)%nat.
Proof.
  intros (b & Hb & Hin & Hrect) Hn Hv Ht Hp Hsum [s Hs].
  destruct (split_indices_exist (shape0 x) v t Hv Ht) as (i1 & i2 & H1 & H2 & Hi & _);
    [unfold shape0; lia|exact Hp|exact Hsum|].
  destruct (dataset_split_run w x v t rng b s i1 i2 Hb Hp Hsum Hs H1 H2)
    as (w' & Hrun & Harr & _).
  eexists _, _, _, w'. split; [exact Hrun|].
  set (rs := fst (rk_shuffle (rows_of b x) s)) in *.
  assert (Hrs : length rs = len x).
  { unfold rs. rewrite rk_shuffle_length. apply rows_of_length, Hin. }
  assert (Hrr : rows_rect (cols b) rs).
  { unfold rows_rect, rs.
    rewrite rk_shuffle_perm. apply rows_of_rect, Hrect. }
  assert (Hw' : arrays w' !! base x = Some (splice x rs b)).
  { rewrite Harr. apply lookup_insert_eq. }
  assert (Hview : forall a, base a = base x ->
            (start x <= start a)%nat ->
            (start a + len a <= start x + len x)%nat -> is_array w' a).
  { intros a Hbase Hs1 Hs2. exists (splice x rs b). rewrite Hbase.
    split; [exact Hw'|]. split.
    - rewrite length_splice by assumption. lia.
    - apply rect_splice; assumption. }
  rewrite (rows_splice_self w' x rs b Hw' Hin Hrs).
  split; [exact (views_tile w' x rs b i1 i2 Hw' Hin Hrs Hi)|].
  destruct (getslice_within x None (Some i1)) as (B1 & S1 & E1).
  destruct (getslice_within x (Some i1) (Some i2)) as (B2 & S2 & E2).
  destruct (getslice_within x (Some i2) None) as (B3 & S3 & E3).
  split; [apply Hview; assumption|].
  split; [apply Hview; assumption|].
  split; [apply Hview; assumption|].
  unfold getslice, slice_index. cbn [base start len].
  destruct (Z.ltb_spec i1 0); [lia|]. destruct (Z.ltb_spec i2 0); [lia|]. lia.
Qed.

(** X2: on an array without rows [dataset_split] returns three arrays
    without rows, and leaves every buffer of the store as it was. *)
Theorem dataset_split_empty (w : world) (x : ndarray) (v t : float)
    (rng : rng_arg) :
  is_array w x -> len x = 0%nat ->
  is_float v -> is_float t ->
  flt f0 v && flt f0 t = true -> flt (fadd v t) f1 = true ->
  is_Some (rng_state w rng) ->
  exists train valid test w',
    dataset_split x v t rng w = (Ok (train, valid, test), w') /\
    len train = 0%nat /\ len valid = 0%nat /\ len test = 0%nat /\
    arrays w' = arrays w.
Proof.
  intros (b & Hb & Hin & Hrect) Hlen Hv Ht Hp Hsum [s Hs].
  destruct (split_indices_exist (shape0 x) v t Hv Ht) as (i1 & i2 & H1 & H2 & _ & Hz);
    [unfold shape0; rewrite Hlen; simpl; lia|exact Hp|exact Hsum|].
  destruct Hz as [-> ->]; [unfold shape0; rewrite Hlen; reflexivity|].
  destruct (dataset_split_run w x v t rng b s 0 0 Hb Hp Hsum Hs H1 H2)
    as (w' & Hrun & Harr & _).
  eexists _, _, _, w'. split; [exact Hrun|].
  unfold getslice, slice_index. rewrite Hlen. cbn.
  repeat split.
  rewrite Harr.
  assert (Hr : rows_of b x = []).
  { unfold rows_of. rewrite Hlen. reflexivity. }
  rewrite Hr. change (fst (rk_shuffle [] s)) with (@nil (list Z)).
  rewrite <- Hr, splice_id. apply insert_id. exact Hb.
Qed.





End SplitFacts.

Section PerturbFacts.

Context {G : Generator}.




Lemma column_set_column_eq n term c rs :
  rows_rect n rs -> (term < n)%nat -> length c = length rs ->
  column term (set_column term c rs) = c.
Proof.
  intros Hr Hlt. revert c. unfold column, set_column.
  induction Hr as [|r rs Hlen _ IH]; intros c Hc.
  - destruct c; [reflexivity|discriminate].
  - destruct c as [|v c]; [discriminate|]. simpl.
    rewrite list_lookup_insert_eq by lia. simpl. f_equal.
    apply IH. simpl in Hc. lia.
Qed.

Lemma column_set_column_ne j term c rs :
  j <> term -> length c = length rs ->
  column j (set_column term c rs) = column j rs.
Proof.
  intros Hj. revert c. unfold column, set_column.
  induction rs as [|r rs IH]; intros c Hc.
  - destruct c; reflexivity.
  - destruct c as [|v c]; [discriminate|]. simpl.
    rewrite list_lookup_insert_ne by congruence.
    rewrite IH by (simpl in Hc; lia). reflexivity.
Qed.

Lemma column_above n j rs : rows_rect n rs -> (n <= j)%nat -> column j rs = [].
Proof.
  intros Hr Hj. unfold column. induction Hr as [|r rs Hlen _ IH]; [reflexivity|].
  simpl. rewrite (lookup_ge_None_2 r j) by lia. exact IH.
Qed.

Lemma perturb_step_shuffle_columns vocab_size dist n N term rs s rs' s' j :
  rows_rect n rs ->
  perturb_step vocab_size dist true n N term rs s = (Ok rs', s') ->
  column j rs' ≡ₚ column j rs.
Proof.
  intros Hr. unfold perturb_step.
  destruct (Nat.leb_spec n term); [discriminate|].
  destruct (rk_shuffle (column term rs) s) as [c s1] eqn:Hc.
  intros [= <- <-].
  assert (Hlen : length c = length rs).
  { change c with (fst (c, s1)). rewrite <- Hc, rk_shuffle_length.
    apply (length_column n); assumption. }
  destruct (decide (j = term)) as [->|Hne].
  - rewrite (column_set_column_eq n) by assumption.
    change c with (fst (c, s1)). rewrite <- Hc. apply rk_shuffle_perm.
  - rewrite column_set_column_ne by assumption. reflexivity.
Qed.

Lemma perturb_terms_shuffle_columns vocab_size dist n N terms rs s j :
  rows_rect n rs -> length rs = N ->
  column j (snd (fst (perturb_terms vocab_size dist true n N terms rs s)))
  ≡ₚ column j rs.
Proof.
  revert rs s. induction terms as [|term terms IH]; intros rs s Hr HN;
    cbn [perturb_terms]; [reflexivity|].
  destruct (perturb_step vocab_size dist true n N term rs s) as [[rs1|e] s1] eqn:E;
    [|reflexivity].
  destruct (perturb_step_shape _ _ _ _ _ _ _ _ _ _ Hr HN E) as [Hr1 HN1].
  rewrite (IH rs1 s1 Hr1 HN1).
  eapply perturb_step_shuffle_columns; eassumption.
Qed.

Lemma random_ngrams_rows (w : world) (ngrams : ndarray) (vocab_size : Z)
    (all_ : bool) (dist : option (list float)) (shuffle : bool) (b : buffer)
    (r_val : ndarray) (w' : world) :
  arrays w !! base ngrams = Some b ->
  (start ngrams + len ngrams <= length (data b))%nat ->
  rect b ->
  random_ngrams ngrams vocab_size all_ dist shuffle w = (Ok r_val, w') ->
  rows w' r_val
  = snd (fst (perturb_terms vocab_size dist shuffle (cols b) (len ngrams)
                (xrange (if all_ then cols b else 1%nat)) (rows_of b ngrams)
                (np_random w))) /\
  r_val = whole (fresh (dom (arrays w))) (len ngrams) /\
  arrays w' = <[fresh (dom (arrays w)) :=
                 {| cols := cols b; data := rows w' r_val |}]> (arrays w).
Proof.
  intros Hb Hin Hrect Hrun.
  destruct (random_ngrams_facts w ngrams vocab_size all_ dist shuffle b Hb Hin Hrect)
    as (rs' & Harr & _ & Hrs & Hout & Hlen & _).
  rewrite Hrun in Harr, Hout. simpl in Harr, Hout.
  destruct (fst (fst (perturb_terms _ _ _ _ _ _ _ _))); [|discriminate].
  injection Hout as ->.
  assert (Hrows : rows w' (whole (fresh (dom (arrays w))) (len ngrams)) = rs').
  { rewrite <- Hlen. apply (rows_whole w' _ (cols b)). rewrite Harr.
    apply lookup_insert_eq. }
  rewrite Hrows. split; [exact Hrs|]. split; [reflexivity|exact Harr].
Qed.

(** X5: in the shuffle mode every column of the result is a permutation of
    the same column of the input: each term keeps the values it had, and how
    often it had them. *)
Theorem random_ngrams_shuffle_columns (w : world) (ngrams : ndarray)
    (vocab_size : Z) (all : bool) (dist : option (list float))
    (r_val : ndarray) (w' : world) :
  is_array w ngrams ->
  random_ngrams ngrams vocab_size all dist true w = (Ok r_val, w') ->
  forall j, column j (rows w' r_val) ≡ₚ column j (rows w ngrams).
Proof.
  intros (b & Hb & Hin & Hrect) Hrun j.
  destruct (random_ngrams_rows w ngrams vocab_size all dist true b r_val w'
              Hb Hin Hrect Hrun) as (-> & _ & _).
  unfold rows at 1. rewrite Hb.
  apply perturb_terms_shuffle_columns;
    [apply rows_of_rect, Hrect|apply rows_of_length, Hin].
Qed.

Lemma set_column_entry_eq term vals rs i v :
  entry (set_column term vals rs) i term = Some v -> vals !! i = Some v.
Proof.
  unfold entry, set_column. rewrite lookup_zip_with.
  destruct (rs !! i) as [r|]; simpl; [|discriminate].
  destruct (vals !! i) as [x|]; simpl; [|discriminate].
  destruct (decide (term < length r)%nat) as [Hlt|Hge].
  - rewrite list_lookup_insert_eq by exact Hlt. congruence.
  - rewrite list_insert_ge by lia. rewrite lookup_ge_None_2 by lia. discriminate.
Qed.

Lemma perturb_step_sampled vocab_size dist n N term rs s rs' s' i v :
  perturb_step vocab_size dist false n N term rs s = (Ok rs', s') ->
  entry rs' i term = Some v -> sampled vocab_size v.
Proof.
  unfold perturb_step.
  destruct (Z.leb_spec vocab_size 0); [discriminate|].
  destruct (negb (p_ok vocab_size dist)); [discriminate|].
  destruct (rk_samples vocab_size dist N s) as [vs s1] eqn:Hvs.
  destruct (Nat.leb_spec n term); [discriminate|].
  intros [= <- <-] He. apply set_column_entry_eq in He.
  apply list_lookup_fmap_Some in He as (x & -> & Hx).
  pose proof (rk_samples_range vocab_size dist N s ltac:(lia)) as Hr.
  rewrite Hvs in Hr. simpl in Hr. rewrite Forall_forall in Hr.
  specialize (Hr x (list_elem_of_lookup_2 _ _ _ Hx)).
  split; [apply astype_uint16_range, Hr|].
  unfold astype_uint16. pose proof (Z.mod_pos_bound x 65536 ltac:(lia)). lia.
Qed.

Lemma perturb_terms_sampled vocab_size dist n N terms rs s i j v :
  rows_rect n rs -> length rs = N ->
  fst (fst (perturb_terms vocab_size dist false n N terms rs s)) = Ok tt ->
  j ∈ terms ->
  entry (snd (fst (perturb_terms vocab_size dist false n N terms rs s))) i j
  = Some v ->
  sampled vocab_size v.
Proof.
  revert rs s. induction terms as [|term terms IH]; intros rs s Hr HN Hok Hj He.
  - apply elem_of_nil in Hj. contradiction.
  - cbn [perturb_terms] in Hok, He.
    destruct (perturb_step vocab_size dist false n N term rs s) as [[rs1|e] s1] eqn:E;
      [|discriminate].
    destruct (perturb_step_shape _ _ _ _ _ _ _ _ _ _ Hr HN E) as [Hr1 HN1].
    destruct (decide (j ∈ terms)) as [Hin|Hnin].
    + exact (IH rs1 s1 Hr1 HN1 Hok Hin He).
    + apply elem_of_cons in Hj as [-> | Hin]; [|contradiction].
      rewrite (perturb_terms_untouched _ _ _ _ _ _ _ _ Hr1 HN1 i term Hnin) in He.
      eapply perturb_step_sampled; eassumption.
Qed.



(** X7: [random_ngrams] changes no generator object, reads no entropy and
    leaves the lists of [main] alone; the one buffer it adds to the store is
    the copy it makes, which is there even when the call raises. *)
Theorem random_ngrams_frame (w : world) (ngrams : ndarray)
    (vocab_size : Z) (all : bool) (dist : option (list float)) (shuffle : bool) :
  is_array w ngrams ->
  let out := random_ngrams ngrams vocab_size all dist shuffle w in
  gens (snd out) = gens w /\ urandom (snd out) = urandom w /\
  x_valid_ll (snd out) = x_valid_ll w /\
  x_valid_ll_ratio (snd out) = x_valid_ll_ratio w /\
  sent_challenge (snd out) = sent_challenge w /\
  dom (arrays (snd out)) = {[fresh (dom (arrays w))]} ∪ dom (arrays w).
Proof.
  intros (b & Hb & Hin & Hrect) out. subst out.
  destruct (random_ngrams_run w ngrams vocab_size all dist shuffle b Hb Hin Hrect)
    as (w' & Hrun & Harr & _ & Hf).
  rewrite Hrun. cbn [snd]. destruct Hf as (H1 & H2 & H3 & H4 & H5).
  repeat split; try assumption.
  rewrite Harr. apply dom_insert_L.
Qed.

End PerturbFacts.

Section Resampling.

Context {G : Generator}.







End Resampling.

Section MainDatasets.

Context {G : Generator}.

Lemma dataset_split_ok_state (w : world) (x : ndarray) (v t : float)
    (rng : rng_arg) (b : buffer) (train valid test : ndarray) (w1 : world) :
  arrays w !! base x = Some b ->
  dataset_split x v t rng w = (Ok (train, valid, test), w1) ->
  exists rs i1 i2,
    rs ≡ₚ rows_of b x /\
    arrays w1 = <[base x := splice x rs b]> (arrays w) /\
    result_bind (int_mul_float (shape0 x) (fsub (fsub f1 v) t)) int_of_float = Ok i1 /\
    result_bind (int_mul_float (shape0 x) (fsub f1 t)) int_of_float = Ok i2 /\
    train = getslice x None (Some i1) /\
    valid = getslice x (Some i1) (Some i2) /\
    test = getslice x (Some i2) None.
Proof.
  intros Hb Hrun.
  destruct (dataset_split_ok_views w x v t rng train valid test)
    as (i1 & i2 & H1 & H2 & Hp & Hsum & [s Hs] & -> & -> & ->).
  { rewrite Hrun. reflexivity. }
  destruct (dataset_split_run w x v t rng b s i1 i2 Hb Hp Hsum Hs H1 H2)
    as (w' & Hrun' & Harr & _).
  rewrite Hrun in Hrun'. injection Hrun' as <-.
  exists (fst (rk_shuffle (rows_of b x) s)), i1, i2.
  split; [apply rk_shuffle_perm|]. repeat split; assumption.
Qed.

(** X9: the data sets of [main].  When the split and the control set are
    made, and the lines in between leave the existing buffers alone: the
    training, validation and test sets are views that tile [ngrams], which
    holds a permutation of its former rows; the control set is on a buffer
    of its own, has as many rows as the validation set, agrees with it on
    every column but column 0, and holds in column 0 words of the vocabulary
    below [65536]. *)
Theorem main_datasets_sets (w w' : world) (ngrams : ndarray) (vocab_size : Z)
    (load_unigrams : M (list float))
    (x_train x_valid x_test x_valid_r : ndarray) :
  is_array w ngrams -> Z.of_nat (len ngrams) < 2 ^ 63 ->
  (forall w0 l, is_Some (arrays w0 !! l) ->
     arrays (snd (load_unigrams w0)) !! l = arrays w0 !! l) ->
  main_datasets ngrams vocab_size load_unigrams w
  = (Ok (x_train, x_valid, x_test, x_valid_r), w') ->
  rows w' x_train ++ rows w' x_valid ++ rows w' x_test = rows w' ngrams /\
  rows w' ngrams ≡ₚ rows w ngrams /\
  base x_valid = base ngrams /\ base x_valid_r <> base ngrams /\
  length (rows w' x_valid_r) = length (rows w' x_valid) /\
  (forall i j, (1 <= j)%nat ->
     entry (rows w' x_valid_r) i j = entry (rows w' x_valid) i j) /\
  (forall i v, entry (rows w' x_valid_r) i 0 = Some v ->
     0 <= v < vocab_size /\ v < 65536).
Proof.
  intros (b & Hb & Hin & Hrect) Hn Hext Hrun.
  unfold main_datasets in Hrun. cbv beta delta [bind] in Hrun.
  destruct (dataset_split ngrams f0_05 f0_05 (RngInt 12345) w)
    as [[[[tr va] te]|e] w1] eqn:Hsplit; [|discriminate].
  cbv beta iota in Hrun.
  destruct (load_unigrams w1) as [[dist|e] w2] eqn:Hload; [|discriminate].
  cbv beta iota in Hrun.
  destruct (random_ngrams va vocab_size false (Some dist) false w2)
    as [[r|e] w3] eqn:Hrand; [|discriminate].
  cbv beta iota delta [ret] in Hrun.
  injection Hrun as <- <- <- <- <-.
  destruct (dataset_split_ok_state w ngrams f0_05 f0_05 (RngInt 12345) b
              tr va te w1 Hb Hsplit)
    as (rs & i1 & i2 & Hperm & Harr1 & H1 & H2 & -> & -> & ->).
  destruct (split_indices_exist (shape0 ngrams) f0_05 f0_05)
    as (j1 & j2 & H1' & H2' & Hi & _);
    [reflexivity|reflexivity|unfold shape0; lia|reflexivity|reflexivity|].
  rewrite H1 in H1'. injection H1' as <-.
  rewrite H2 in H2'. injection H2' as <-.
  assert (Hrs : length rs = len ngrams).
  { rewrite Hperm. apply rows_of_length, Hin. }
  assert (Hrr : rows_rect (cols b) rs).
  { unfold rows_rect. rewrite Hperm. apply rows_of_rect, Hrect. }
  assert (Hb1 : arrays w1 !! base ngrams = Some (splice ngrams rs b)).
  { rewrite Harr1. apply lookup_insert_eq. }
  assert (Hb2 : arrays w2 !! base ngrams = Some (splice ngrams rs b)).
  { pose proof (Hext w1 (base ngrams)) as H. rewrite Hload in H. simpl in H.
    rewrite H by (rewrite Hb1; eauto). exact Hb1. }
  set (va := getslice ngrams (Some i1) (Some i2)) in *.
  destruct (getslice_within ngrams (Some i1) (Some i2)) as (Hvb & Hvs & Hve).
  fold va in Hvb, Hvs, Hve.
  assert (Hb2v : arrays w2 !! base va = Some (splice ngrams rs b)).
  { rewrite Hvb. exact Hb2. }
  assert (Hinv : (start va + len va <= length (data (splice ngrams rs b)))%nat).
  { rewrite length_splice by assumption. lia. }
  pose proof (rect_splice ngrams rs b Hrect Hrr) as Hrect2.
  destruct (random_ngrams_rows w2 va vocab_size false (Some dist) false
              (splice ngrams rs b) r w3 Hb2v Hinv Hrect2 Hrand)
    as (Hrows & Hr & Harr3).
  set (l := fresh (dom (arrays w2))) in *.
  assert (Hl : l <> base ngrams).
  { intros E. pose proof (fresh_array_loc w2) as Hf. fold l in Hf.
    rewrite E, Hb2 in Hf. discriminate. }
  assert (Hb3 : arrays w3 !! base ngrams = Some (splice ngrams rs b)).
  { rewrite Harr3, lookup_insert_ne by exact Hl. exact Hb2. }
  assert (Hva3 : rows w3 va = rows_of (splice ngrams rs b) va).
  { unfold rows. rewrite Hvb, Hb3. reflexivity. }
  split; [|split; [|split; [|split; [|split; [|split]]]]].
  - rewrite (rows_splice_self w3 ngrams rs b Hb3 Hin Hrs).
    apply (views_tile w3 ngrams rs b i1 i2 Hb3 Hin Hrs Hi).
  - rewrite (rows_splice_self w3 ngrams rs b Hb3 Hin Hrs).
    unfold rows. rewrite Hb. exact Hperm.
  - exact Hvb.
  - rewrite Hr. exact Hl.
  - rewrite Hrows, Hva3.
    pose proof (perturb_terms_shape vocab_size (Some dist) false
                  (cols (splice ngrams rs b)) (len va) (xrange 1)
                  (rows_of (splice ngrams rs b) va) (np_random w2)
                  (rows_of_rect _ va Hrect2) (rows_of_length _ va Hinv))
      as [_ Hlen].
    rewrite Hlen. symmetry. apply rows_of_length, Hinv.
  - intros i j Hj. rewrite Hrows, Hva3.
    apply (perturb_terms_untouched vocab_size (Some dist) false
             (cols (splice ngrams rs b)) (len va)).
    + apply rows_of_rect, Hrect2.
    + apply rows_of_length, Hinv.
    + change (xrange 1) with [0%nat]. intros Hc.
      apply list_elem_of_singleton in Hc. lia.
  - intros i v He. rewrite Hrows in He.
    apply (perturb_terms_sampled vocab_size (Some dist)
             (cols (splice ngrams rs b)) (len va) (xrange 1)
             (rows_of (splice ngrams rs b) va) (np_random w2) i 0%nat v).
    + apply rows_of_rect, Hrect2.
    + apply rows_of_length, Hinv.
    + destruct (random_ngrams_facts w2 va vocab_size false (Some dist) false
                  (splice ngrams rs b) Hb2v Hinv Hrect2)
        as (rs' & _ & _ & _ & Hout & _).
      rewrite Hrand in Hout. cbn [fst] in Hout.
      destruct (fst (fst (perturb_terms _ _ _ _ _ _ _ _))) as [[]|e];
        [reflexivity|discriminate].
    + change (xrange 1) with [0%nat]. apply list_elem_of_singleton. reflexivity.
    + exact He.
Qed.

End MainDatasets.

Section CallbackFacts.

Context {G : Generator} {L : Model} {U : Ufuncs}.

Lemma value_of_world (a : ndarray) (w : world) : snd (value_of a w) = w.
Proof.
  unfold value_of, bind, read_buffer. destruct (arrays w !! base a); reflexivity.
Qed.

Lemma getitem_world (a : ndarray) (i : Z) (w : world) : snd (getitem a i w) = w.
Proof.
  unfold getitem.
  destruct ((_ <? 0) || (_ <=? _)); [reflexivity|].
  unfold bind, read_buffer. destruct (arrays w !! base a) as [b|]; [|reflexivity].
  destruct (rows_of b a !! _); reflexivity.
Qed.

Lemma ratio_part_run (x_valid x_valid_r : ndarray) (m : lrbm) (w : world) :
  (exists e, ratio_part x_valid x_valid_r m w = (Raise e, w)) \/
  (exists v, ratio_part x_valid x_valid_r m w = append_x_valid_ll_ratio v w).
Proof.
  unfold ratio_part, bind, lift.
  pose proof (value_of_world x_valid w) as H1.
  destruct (value_of x_valid w) as [[v|e] w1]; simpl in H1; subst w1;
    [|left; eauto].
  destruct (unnp_f m v) as [u|e]; [|left; eauto].
  pose proof (value_of_world x_valid_r w) as H2.
  destruct (value_of x_valid_r w) as [[v_r|e] w2]; simpl in H2; subst w2;
    [|left; eauto].
  destruct (unnp_f m v_r) as [u_r|e]; [|left; eauto].
  destruct (np_divide u u_r) as [q|e]; [|left; eauto].
  right. eauto.
Qed.

Lemma mnb_callback_parts (x_valid x_valid_r : ndarray) (m : lrbm)
    (epoch mnb : Z) :
  mnb mod 10 = 9 ->
  mnb_callback x_valid x_valid_r m epoch mnb =
    (let* batch := getitem x_valid _LOG_LIK_SIZE in
     let* p := lift (probability_f m batch) in
     let* _ := append_x_valid_ll (np_mean (map np_log p)) in
     ratio_part x_valid x_valid_r m).
Proof. intros Hm. rewrite (mnb_callback_fires _ _ _ _ _ Hm). reflexivity. Qed.

Lemma mnb_callback_run (x_valid x_valid_r : ndarray) (m : lrbm)
    (epoch mnb : Z) (w : world) :
  mnb mod 10 = 9 ->
  (exists e, mnb_callback x_valid x_valid_r m epoch mnb w = (Raise e, w)) \/
  (exists v e,
     mnb_callback x_valid x_valid_r m epoch mnb w
     = (Raise e, snd (append_x_valid_ll v w))) \/
  (exists v v',
     mnb_callback x_valid x_valid_r m epoch mnb w
     = append_x_valid_ll_ratio v' (snd (append_x_valid_ll v w))).
Proof.
  intros Hm. rewrite (mnb_callback_parts _ _ _ _ _ Hm).
  cbv beta delta [bind lift].
  pose proof (getitem_world x_valid _LOG_LIK_SIZE w) as H1.
  destruct (getitem x_valid _LOG_LIK_SIZE w) as [[batch|e] w1]; simpl in H1;
    subst w1; [|left; eauto].
  destruct (probability_f m batch) as [p|e]; [|left; eauto].
  set (v := np_mean (map np_log p)).
  change (append_x_valid_ll v w) with (Ok tt, snd (append_x_valid_ll v w)).
  cbv iota beta.
  right.
  destruct (ratio_part_run x_valid x_valid_r m (snd (append_x_valid_ll v w)))
    as [[e He]|[v' Hv']].
  - left. exists v, e. exact He.
  - right. exists v, v'. exact Hv'.
Qed.

(** X10: [mnb_callback] does nothing on a minibatch whose number is not 9
    modulo 10, and on no minibatch does it change an array, a generator, the
    source of entropy or [sent_challenge]. *)
Theorem mnb_callback_frame (x_valid x_valid_r : ndarray) (m : lrbm)
    (epoch mnb : Z) (w : world) :
  let out := mnb_callback x_valid x_valid_r m epoch mnb w in
  (mnb mod 10 <> 9 -> out = (Ok tt, w)) /\
  arrays (snd out) = arrays w /\ gens (snd out) = gens w /\
  np_random (snd out) = np_random w /\ urandom (snd out) = urandom w /\
  sent_challenge (snd out) = sent_challenge w.
Proof.
  intros out. subst out. split.
  - intros Hm. unfold mnb_callback.
    destruct (Z.eqb_spec (mnb mod 10) 9); [contradiction|]. reflexivity.
  - destruct (Z.eq_dec (mnb mod 10) 9) as [Hm|Hm].
    + destruct (mnb_callback_run x_valid x_valid_r m epoch mnb w Hm)
        as [[e ->]|[(v & e & ->)|(v & v' & ->)]]; repeat split.
    + unfold mnb_callback.
      destruct (Z.eqb_spec (mnb mod 10) 9); [contradiction|]. repeat split.
Qed.

(** X11: on a minibatch where it fires, [mnb_callback] appends one value
    to each of [x_valid_ll] and [x_valid_ll_ratio] when it returns.  When it
    raises, [x_valid_ll_ratio] is as before, and [x_valid_ll] is as before
    or one value longer: if the probability of the row [x_valid[100]] can be
    computed and the un-normalised scores of [x_valid] cannot, the first
    list has grown and the second has not. *)
Theorem mnb_callback_traces (x_valid x_valid_r : ndarray) (m : lrbm)
    (epoch mnb : Z) (w : world) :
  mnb mod 10 = 9 ->
  let out := mnb_callback x_valid x_valid_r m epoch mnb w in
  (fst out = Ok tt ->
   exists v v', x_valid_ll (snd out) = x_valid_ll w ++ [v] /\
                x_valid_ll_ratio (snd out) = x_valid_ll_ratio w ++ [v']) /\
  (forall e, fst out = Raise e ->
     x_valid_ll_ratio (snd out) = x_valid_ll_ratio w /\
     (x_valid_ll (snd out) = x_valid_ll w \/
      exists v, x_valid_ll (snd out) = x_valid_ll w ++ [v])) /\
  (forall row p v e,
     is_array w x_valid ->
     rows w x_valid !! Z.to_nat _LOG_LIK_SIZE = Some row ->
     probability_f m (Arr1 row) = Ok p ->
     fst (value_of x_valid w) = Ok v -> unnp_f m v = Raise e ->
     fst out = Raise e /\
     x_valid_ll (snd out) = x_valid_ll w ++ [np_mean (map np_log p)] /\
     x_valid_ll_ratio (snd out) = x_valid_ll_ratio w).
Proof.
  intros Hm out. subst out. split; [|split].
  - destruct (mnb_callback_run x_valid x_valid_r m epoch mnb w Hm)
      as [[e ->]|[(v & e & ->)|(v & v' & ->)]]; simpl; try discriminate.
    intros _. exists v, v'. split; reflexivity.
  - intros e0.
    destruct (mnb_callback_run x_valid x_valid_r m epoch mnb w Hm)
      as [[e ->]|[(v & e & ->)|(v & v' & ->)]]; simpl; try discriminate.
    + intros _. split; [reflexivity|left; reflexivity].
    + intros _. split; [reflexivity|right; exists v; reflexivity].
  - intros row p v0 e (b & Hb & Hin & Hrect) Hrow Hp Hv0 Hu.
    assert (Hlen : Z.of_nat (len x_valid) > _LOG_LIK_SIZE).
    { apply lookup_lt_Some in Hrow.
      assert (Hl : length (rows w x_valid) = len x_valid).
      { unfold rows. rewrite Hb. apply rows_of_length. exact Hin. }
      unfold _LOG_LIK_SIZE in *. lia. }
    rewrite (mnb_callback_parts _ _ _ _ _ Hm).
    unfold rows in Hrow. rewrite Hb in Hrow.
    cbv beta delta [bind lift].
    rewrite (getitem_row w x_valid _LOG_LIK_SIZE b row Hb)
      by (first [exact Hrow | unfold _LOG_LIK_SIZE in *; lia]).
    rewrite Hp.
    set (v := np_mean (map np_log p)).
    change (append_x_valid_ll v w) with (Ok tt, snd (append_x_valid_ll v w)).
    cbv iota beta.
    set (w1 := snd (append_x_valid_ll v w)).
    rewrite (value_of_fst w x_valid b Hb) in Hv0. injection Hv0 as <-.
    unfold ratio_part, value_of, read_buffer. cbv beta delta [bind lift ret].
    change (arrays w1) with (arrays w). rewrite Hb. cbv iota beta.
    rewrite Hu. repeat split.
Qed.

(** X12: [epoch_callback] either raises and leaves the state as it was,
    or returns and has appended exactly one value to [sent_challenge]; it
    changes nothing else. *)
Theorem epoch_callback_all_or_nothing (q_groups : list (list ndvalue))
    (answers : list Z) (m : lrbm) (epoch : Z) (w : world) :
  let out := epoch_callback q_groups answers m epoch w in
  (forall e, fst out = Raise e -> snd out = w) /\
  (fst out = Ok tt ->
   exists acc, sent_challenge (snd out) = sent_challenge w ++ [acc]) /\
  arrays (snd out) = arrays w /\ gens (snd out) = gens w /\
  np_random (snd out) = np_random w /\ urandom (snd out) = urandom w /\
  x_valid_ll (snd out) = x_valid_ll w /\
  x_valid_ll_ratio (snd out) = x_valid_ll_ratio w.
Proof.
  intros out. subst out. unfold epoch_callback, bind, lift.
  destruct (qg_log_lik q_groups m) as [scores|e]; [|repeat split; discriminate].
  destruct (predictions scores) as [preds|e]; [|repeat split; discriminate].
  destruct (np_equal _ answers) as [hits|e]; [|repeat split; discriminate].
  simpl. repeat split; try discriminate. intros _. eauto.
Qed.

Lemma argmax_from_bound (ip : list float) (mp : float) (max_ind i : nat) :
  (max_ind < i)%nat ->
  (argmax_from mp max_ind i ip < i + length ip)%nat.
Proof.
  revert mp max_ind i. induction ip as [|v ip IH]; intros mp max_ind i Hlt; simpl.
  - lia.
  - destruct (negb (fle v mp)).
    + destruct (is_nan v); [lia|].
      specialize (IH v i (S i) ltac:(lia)). lia.
    + specialize (IH mp max_ind (S i) ltac:(lia)). lia.
Qed.

Lemma fle_nan_l (x : float) : fle S754_nan x = false.
Proof. destruct x; reflexivity. Qed.

Lemma argmax_from_nan (pre ip : list float) (mp : float) (max_ind i : nat) :
  is_nan mp = false -> no_nan pre ->
  argmax_from mp max_ind i (pre ++ S754_nan :: ip) = (i + length pre)%nat.
Proof.
  revert mp max_ind i. induction pre as [|v pre IH]; intros mp max_ind i Hmp Hpre.
  - change ([] ++ S754_nan :: ip) with (S754_nan :: ip).
    cbn [argmax_from]. rewrite fle_nan_l. cbn [negb is_nan length]. lia.
  - apply Forall_cons in Hpre as [Hv Hpre].
    change ((v :: pre) ++ S754_nan :: ip) with (v :: (pre ++ S754_nan :: ip)).
    cbn [argmax_from length].
    destruct (negb (fle v mp)).
    + rewrite Hv. rewrite IH by assumption. lia.
    + rewrite IH by assumption. lia.
Qed.

Lemma np_argmax_bounds_and_nan (g : list float) :
  (forall p, np_argmax g = Ok p -> (p < length g)%nat) /\
  (forall pre post, g = pre ++ S754_nan :: post -> no_nan pre ->
     np_argmax g = Ok (length pre)) /\
  (g = [] -> np_argmax g = Raise ValueError).
Proof.
  split; [|split].
  - destruct g as [|mp ip]; simpl; [discriminate|].
    intros p [= <-]. destruct (is_nan mp); [lia|].
    pose proof (argmax_from_bound ip mp 0 1 ltac:(lia)). lia.
  - intros pre post -> Hpre. destruct pre as [|mp pre]; [reflexivity|].
    apply Forall_cons in Hpre as [Hmp Hpre]. simpl. rewrite Hmp.
    rewrite argmax_from_nan by assumption. reflexivity.
  - intros ->. reflexivity.
Qed.

(** X13: every prediction [epoch_callback] computes is an index of its
    group, and for a group that holds a NaN score it is the index of the
    first NaN. *)
Theorem predictions_bounds_and_nan (scores : list (list float))
    (preds : list nat) :
  predictions scores = Ok preds ->
  Forall2 (fun g p =>
             (p < length g)%nat /\
             (forall pre post, g = pre ++ S754_nan :: post -> no_nan pre ->
                p = length pre))
          scores preds.
Proof.
  intros H. apply result_map_Forall2 in H.
  eapply Forall2_impl; [exact H|]. cbv beta.
  intros g p Hp. destruct (np_argmax_bounds_and_nan g) as (Hb & Hn & _).
  split; [exact (Hb p Hp)|].
  intros pre post Hg Hpre. specialize (Hn pre post Hg Hpre).
  rewrite Hp in Hn. injection Hn as ->. reflexivity.
Qed.

(** X14: with no candidate groups and no answers, [epoch_callback] returns
    and the accuracy it appends is NaN, the mean of an empty array. *)
Theorem epoch_callback_no_groups (m : lrbm) (epoch : Z) (w : world) :
  exists acc,
    epoch_callback [] [] m epoch w = append_sent_challenge acc w /\
    is_nan acc = true.
Proof. exists (mean_bool []). split; reflexivity. Qed.

End CallbackFacts.

(** ** The lines of [main] *)

Module FlagsFacts.

Import Ascii String Flags.

Lemma lower_one_char (c : ascii) :
  existsb (String.eqb (lower (String c EmptyString)))
    ["1"; "true"; "yes"; "t"; "y"]%string = is_flag c.
Proof.
  destruct c as [[] [] [] [] [] [] [] []]; vm_compute; reflexivity.
Qed.

(** X16: [ft_format] gives one flag for every character of its argument:
    the flag is set when the character is one of [1], [t], [T], [y], [Y].
    The words [true] and [yes] of the list it tests against are never
    matched. *)
Theorem ft_format_by_character (s : string) :
  ft_format s = List.map is_flag (list_ascii_of_string s) /\
  List.length (ft_format s) = String.length s.
Proof.
  assert (H : ft_format s = List.map is_flag (list_ascii_of_string s)).
  { unfold ft_format. induction s as [|c s IH]; [reflexivity|].
    cbn [iter_str list_ascii_of_string List.map].
    rewrite IH, lower_one_char. reflexivity. }
  split; [exact H|].
  rewrite H, List.length_map. clear H.
  induction s as [|c s IH]; simpl; [reflexivity|]. rewrite IH. reflexivity.
Qed.

End FlagsFacts.

Section MainFacts.

Context {G : Generator}.

(** X15: for a positive minibatch size, [mnb_count] is the least number of
    minibatches that cover the training set, 0 for an empty one:
    [(mnb_count - 1) * mnb_size < N <= mnb_count * mnb_size]; for the size 0
    the division raises. *)
Theorem mnb_count_covers (x_train : ndarray) (mnb_size : Z) :
  (0 < mnb_size ->
   exists c, mnb_count x_train mnb_size = Some c /\ 0 <= c /\
             (c - 1) * mnb_size < shape0 x_train <= c * mnb_size) /\
  (mnb_size = 0 -> mnb_count x_train mnb_size = None).
Proof.
  split.
  - intros Hs. unfold mnb_count, int_div.
    destruct (Z.eqb_spec mnb_size 0) as [->|_]; [lia|]. simpl.
    eexists. split; [reflexivity|].
    assert (Hn : 0 <= shape0 x_train) by (unfold shape0; lia).
    pose proof (Z.div_mod (shape0 x_train - 1) mnb_size ltac:(lia)) as Hd.
    pose proof (Z.mod_pos_bound (shape0 x_train - 1) mnb_size Hs) as Hm.
    assert (-1 <= (shape0 x_train - 1) / mnb_size).
    { apply Z.div_le_lower_bound; lia. }
    nia.
  - intros ->. reflexivity.
Qed.

End MainFacts.

(** ** The properties at work on the examples *)

Import Example.

Lemma run_fst {A B : Type} (p : A * B) (a : A) : fst p = a -> p = (a, snd p).
Proof. destruct p. simpl. intros ->. reflexivity. Qed.

Lemma x3_is_array : is_array Example.w3 Example.x3.
Proof.
  eexists. split; [reflexivity|]. split; [simpl; lia|]. repeat constructor.
Qed.

Lemma x3'_is_array : is_array Example.w3' Example.x3'.
Proof.
  eexists. split; [reflexivity|]. split; [simpl; lia|]. repeat constructor.
Qed.

Lemma x101_is_array (n : nat) :
  (n <= 101)%nat ->
  is_array Example.w101 {| base := 1; start := 0; len := n |}.
Proof.
  intros Hn.
  exists {| cols := 1; data := map (fun i => [Z.of_nat i]) (seq 0 101) |}.
  split; [reflexivity|]. split.
  - cbn [start len data]. rewrite length_map, length_seq. lia.
  - unfold rect. cbn [cols data]. apply Forall_forall. intros r Hr.
    apply list_elem_of_fmap in Hr as (i & -> & _). reflexivity.
Qed.

(** C1, at a validation set of exactly 100 rows and at one of 101 rows: the
    first raises; on the second the value recorded is the one of the model
    on the single row [[100]], which this model scores [0.05], while it
    scores every row of a matrix [1.]. *)
Lemma mnb_callback_log_lik_batch_witness :
  mnb_callback {| base := 1; start := 0; len := 100 |} Example.x101
    (tt : @lrbm Example.model) 0 9 Example.w101
  = (Raise IndexError, Example.w101) /\
  rows Example.w101 Example.x101 !! 100%nat = Some [100] /\
  x_valid_ll (snd (mnb_callback Example.x101 Example.x101
                     (tt : @lrbm Example.model) 0 9 Example.w101))
  = [np_mean (map np_log [f0_05])].
Proof.
  split; [|split].
  - apply (mnb_callback_log_lik_batch
             {| base := 1; start := 0; len := 100 |} Example.x101
             (tt : @lrbm Example.model) 0 9 Example.w101).
    + apply x101_is_array. lia.
    + reflexivity.
    + vm_compute. discriminate.
  - reflexivity.
  - exact (proj2 (mnb_callback_log_lik_batch Example.x101 Example.x101
                    (tt : @lrbm Example.model) 0 9 Example.w101
                    (x101_is_array 101 (le_n 101)) eq_refl)
                 [100] [f0_05] eq_refl eq_refl).
Defined.

(** C2, on a thousand rows. *)
Lemma dataset_split_1000_rows_witness :
  exists w',
    dataset_split Example.x1000 f0_05 f0_05 (RngInt 12345) Example.w1000 =
      (Ok (getslice Example.x1000 None (Some 899),
           getslice Example.x1000 (Some 899) (Some 950),
           getslice Example.x1000 (Some 950) None), w') /\
    len (getslice Example.x1000 None (Some 899)) = 899%nat /\
    len (getslice Example.x1000 (Some 899) (Some 950)) = 51%nat /\
    len (getslice Example.x1000 (Some 950) None) = 50%nat.
Proof.
  apply (dataset_split_1000_rows Example.w1000 Example.x1000 [Z.to_nat 12345]).
  - eexists. reflexivity.
  - reflexivity.
  - reflexivity.
Defined.

(** C3, on three rows. *)
Lemma dataset_split_partition_witness :
  exists train valid test w',
    dataset_split Example.x3 f0_05 f0_05 (RngInt 12345) Example.w3
      = (Ok (train, valid, test), w') /\
    (len train + len valid + len test = len Example.x3)%nat /\
    length (rows w' train) = len train /\
    length (rows w' valid) = len valid /\
    length (rows w' test) = len test /\
    rows w' train ++ rows w' valid ++ rows w' test ≡ₚ rows Example.w3 Example.x3.
Proof.
  apply (dataset_split_partition Example.w3 Example.x3 f0_05 f0_05 (RngInt 12345)).
  - exact x3_is_array.
  - simpl. lia.
  - simpl. lia.
  - reflexivity.
  - reflexivity.
  - reflexivity.
  - reflexivity.
  - eexists. reflexivity.
Defined.



(** C5, on the same three rows held by two stores. *)
Lemma seeded_runs_agree_witness :
  (forall validation test seed,
     let out1 := dataset_split Example.x3 validation test (RngInt seed) Example.w3 in
     let out2 := dataset_split Example.x3' validation test (RngInt seed) Example.w3' in
     same_outcome
       (fun '(tr1, va1, te1) '(tr2, va2, te2) =>
          fst (value_of tr1 (snd out1)) = fst (value_of tr2 (snd out2)) /\
          fst (value_of va1 (snd out1)) = fst (value_of va2 (snd out2)) /\
          fst (value_of te1 (snd out1)) = fst (value_of te2 (snd out2)))
       (fst out1) (fst out2)) /\
  (forall vocab_size all dist shuffle,
     np_random Example.w3 = np_random Example.w3' ->
     let out1 := random_ngrams Example.x3 vocab_size all dist shuffle Example.w3 in
     let out2 := random_ngrams Example.x3' vocab_size all dist shuffle Example.w3' in
     same_outcome
       (fun r1 r2 => fst (value_of r1 (snd out1)) = fst (value_of r2 (snd out2)))
       (fst out1) (fst out2)).
Proof.
  apply (seeded_runs_agree Example.w3 Example.w3' Example.x3 Example.x3').
  - exact x3_is_array.
  - exact x3'_is_array.
  - reflexivity.
Defined.


(** C7, on three rows, sampling the first term from ten words. *)
Lemma random_ngrams_shape_and_frame_witness :
  let out := random_ngrams Example.x3 10 false None false Example.w3 in
  (forall l, is_Some (arrays Example.w3 !! l) ->
             arrays (snd out) !! l = arrays Example.w3 !! l) /\
  rows (snd out) Example.x3 = rows Example.w3 Example.x3 /\
  (forall r_val, fst out = Ok r_val ->
     len r_val = len Example.x3 /\
     length (rows (snd out) r_val) = length (rows Example.w3 Example.x3) /\
     fst (shape1 r_val (snd out)) = fst (shape1 Example.x3 Example.w3) /\
     (false = false -> forall i j, (1 <= j)%nat ->
        entry (rows (snd out) r_val) i j
        = entry (rows Example.w3 Example.x3) i j)) /\
  (forall n, fst (shape1 Example.x3 Example.w3) = Ok n -> (1 <= n)%nat ->
     false = true \/ (0 < 10 /\ p_ok (G := Tape.generator) 10 None = true) ->
     is_ok (fst out) = true).
Proof.
  apply (random_ngrams_shape_and_frame Example.w3 Example.x3 10 false None false).
  exact x3_is_array.
Defined.


(** C9, on two groups of candidates. *)
Lemma sentence_completion_predictions_witness :
  Forall2 (Forall2 (fun q s =>
             exists u, unnp_f (tt : @lrbm Example.model) q = Ok u /\
                       s = np_sum (map np_log u)))
          Example.q_groups Example.scores /\
  (Forall (fun g => g <> [] /\ no_nan g) Example.scores ->
     exists preds, predictions Example.scores = Ok preds /\
                   Forall2 first_max Example.scores preds) /\
  (forall preds hits,
     predictions Example.scores = Ok preds ->
     np_equal (map Z.of_nat preds) [0; 1] = Ok hits ->
     epoch_callback Example.q_groups [0; 1] (tt : @lrbm Example.model) 0
       Example.w3
     = append_sent_challenge (mean_bool hits) Example.w3) /\
  (forall s0 s1, s1 = s0 \/ SFeqb s0 s1 = true ->
     predictions [[s0; s1]] = Ok [0%nat]).
Proof.
  apply (sentence_completion_predictions Example.q_groups [0; 1]
           (tt : @lrbm Example.model) 0 Example.w3 Example.scores).
  vm_compute. reflexivity.
Defined.

(** C10, on a group without candidates after a group of one. *)
Lemma epoch_callback_empty_group_witness :
  (exists e,
     epoch_callback [[Arr2 1 [[1]]]; []] [0; 0] (tt : @lrbm Example.model) 0
       Example.w3 = (Raise e, Example.w3)) /\
  (is_ok (qg_log_lik [[Arr2 1 [[1]]]; []] (tt : @lrbm Example.model)) = true ->
   epoch_callback [[Arr2 1 [[1]]]; []] [0; 0] (tt : @lrbm Example.model) 0
     Example.w3 = (Raise ValueError, Example.w3)).
Proof.
  apply (epoch_callback_empty_group [[Arr2 1 [[1]]]; []] [0; 0]
           (tt : @lrbm Example.model) 0 Example.w3).
  repeat constructor.
Defined.

(** ** Further properties at work on the examples *)

Lemma x0_is_array : is_array Example.w3 Cases.x0.
Proof.
  eexists. split; [reflexivity|]. split; [simpl; lia|]. repeat constructor.
Qed.

Lemma x40_is_array : is_array Cases.w40 Cases.x40.
Proof.
  eexists. split; [reflexivity|]. split.
  - cbn [start len data Cases.x40]. rewrite length_map, length_seq. lia.
  - unfold rect. cbn [cols data]. apply Forall_forall. intros r Hr.
    apply list_elem_of_fmap in Hr as (i & -> & _). reflexivity.
Qed.

(** The traces of [mnb_callback] out of step: the model gives the
    probability of the row and raises on the un-normalised scores. *)
Lemma mnb_callback_traces_witness :
  fst (mnb_callback (L := Cases.half_model) Example.x101 Example.x101 tt 0 9
         Example.w101) = Raise ValueError /\
  x_valid_ll (snd (mnb_callback (L := Cases.half_model) Example.x101
                     Example.x101 tt 0 9 Example.w101))
  = x_valid_ll Example.w101 ++ [np_mean (map np_log [f0_05])] /\
  x_valid_ll_ratio (snd (mnb_callback (L := Cases.half_model) Example.x101
                           Example.x101 tt 0 9 Example.w101))
  = x_valid_ll_ratio Example.w101.
Proof.
  exact (proj2 (proj2 (mnb_callback_traces (L := Cases.half_model)
                         Example.x101 Example.x101 tt 0 9 Example.w101 eq_refl))
           [100] [f0_05]
           (Arr2 1 (map (fun i => [Z.of_nat i]) (seq 0 101))) ValueError
           (x101_is_array 101 (le_n 101)) eq_refl eq_refl eq_refl eq_refl).
Defined.

(** A group whose second score is NaN. *)
Lemma predictions_bounds_and_nan_witness :
  Forall2 (fun g p =>
             (p < length g)%nat /\
             (forall pre post, g = pre ++ S754_nan :: post -> no_nan pre ->
                p = length pre))
          [[f1; S754_nan; f0]; [f0; f1]] [1%nat; 1%nat].
Proof.
  apply (predictions_bounds_and_nan [[f1; S754_nan; f0]; [f0; f1]]
           [1%nat; 1%nat]).
  reflexivity.
Defined.

Lemma dataset_split_tiles_witness :
  exists train valid test w',
    dataset_split Example.x3 f0_05 f0_05 (RngInt 12345) Example.w3
      = (Ok (train, valid, test), w') /\
    rows w' train ++ rows w' valid ++ rows w' test = rows w' Example.x3 /\
    is_array w' train /\ is_array w' valid /\ is_array w' test /\
    start train = start Example.x3 /\
    start valid = (start train + len train)%nat /\
    start test = (start valid + len valid)%nat /\
    (start test + len test = start Example.x3 + len Example.x3)%nat.
Proof.
  apply (dataset_split_tiles Example.w3 Example.x3 f0_05 f0_05 (RngInt 12345)).
  - exact x3_is_array.
  - simpl. lia.
  - reflexivity.
  - reflexivity.
  - reflexivity.
  - reflexivity.
  - eexists. reflexivity.
Defined.

Lemma dataset_split_empty_witness :
  exists train valid test w',
    dataset_split Cases.x0 f0_05 f0_05 (RngInt 12345) Example.w3
      = (Ok (train, valid, test), w') /\
    len train = 0%nat /\ len valid = 0%nat /\ len test = 0%nat /\
    arrays w' = arrays Example.w3.
Proof.
  apply (dataset_split_empty Example.w3 Cases.x0 f0_05 f0_05 (RngInt 12345)).
  - exact x0_is_array.
  - reflexivity.
  - reflexivity.
  - reflexivity.
  - reflexivity.
  - reflexivity.
  - eexists. reflexivity.
Defined.


Lemma random_ngrams_shuffle_columns_witness :
  column 1 (rows (snd (random_ngrams Example.x3 10 true None true Example.w3))
                 {| base := 2; start := 0; len := 3 |})
  ≡ₚ column 1 (rows Example.w3 Example.x3).
Proof.
  apply (random_ngrams_shuffle_columns Example.w3 Example.x3 10 true None
           {| base := 2; start := 0; len := 3 |}
           (snd (random_ngrams Example.x3 10 true None true Example.w3))).
  - exact x3_is_array.
  - apply run_fst. vm_compute. reflexivity.
Defined.


(** The data sets of [main] on forty 2-grams: 36 for training, 2 for
    validation, 2 for testing, and a control set of 2. *)
Lemma main_datasets_sets_witness :
  let w' := snd (main_datasets Cases.x40 4 (ret Cases.unigrams) Cases.w40) in
  let x_train := {| base := 1; start := 0; len := 36 |} in
  let x_valid := {| base := 1; start := 36; len := 2 |} in
  let x_test := {| base := 1; start := 38; len := 2 |} in
  let x_valid_r := {| base := 2; start := 0; len := 2 |} in
  rows w' x_train ++ rows w' x_valid ++ rows w' x_test = rows w' Cases.x40 /\
  rows w' Cases.x40 ≡ₚ rows Cases.w40 Cases.x40 /\
  base x_valid = base Cases.x40 /\ base x_valid_r <> base Cases.x40 /\
  length (rows w' x_valid_r) = length (rows w' x_valid) /\
  (forall i j, (1 <= j)%nat ->
     entry (rows w' x_valid_r) i j = entry (rows w' x_valid) i j) /\
  (forall i v, entry (rows w' x_valid_r) i 0 = Some v ->
     0 <= v < 4 /\ v < 65536).
Proof.
  apply (main_datasets_sets Cases.w40
           (snd (main_datasets Cases.x40 4 (ret Cases.unigrams) Cases.w40))
           Cases.x40 4 (ret Cases.unigrams)).
  - exact x40_is_array.
  - simpl. lia.
  - intros w0 l _. reflexivity.
  - apply run_fst. vm_compute. reflexivity.
Defined.



Lemma random_ngrams_frame_witness :
  let out := random_ngrams Example.x3 10 false None false Example.w3 in
  gens (snd out) = gens Example.w3 /\ urandom (snd out) = urandom Example.w3 /\
  x_valid_ll (snd out) = x_valid_ll Example.w3 /\
  x_valid_ll_ratio (snd out) = x_valid_ll_ratio Example.w3 /\
  sent_challenge (snd out) = sent_challenge Example.w3 /\
  dom (arrays (snd out))
  = {[fresh (dom (arrays Example.w3))]} ∪ dom (arrays Example.w3).
Proof.
  apply (random_ngrams_frame Example.w3 Example.x3 10 false None false).
  exact x3_is_array.
Defined.
